(** * Job_api: the job lifecycle engine

    A shallow embedding of the priority job queue of this repository
    (config.py, models.py, database.py, worker.py, app.py) and the
    properties of its dequeue protocol, job state machine, retry policy and
    store/broker agreement.

    Modelling conventions
    - The SQLite table [jobs] is a finite map from [job_id] to the stored
      row; [INSERT OR REPLACE] is map insertion.
    - The Redis sorted set [job_queue] is a finite map from member to score;
      [ZADD] inserts or overwrites the score of a member, [ZPOPMIN] removes
      the member with the least score (least member among equal scores).
      Redis itself is taken to answer every command.
    - A store write may fail: [save_job] catches the exception and returns
      [False].  Whether the write issued at logical time [t] succeeds is
      given by the oracle [store_ok t].
    - The mock handlers draw a random number; the outcome of the draw made
      at logical time [t] is given by the oracle [handler_ok t job].
    - [datetime.now()] reads the logical clock; [time.sleep] advances it.
    - Every externally visible effect is appended to a trace, so that the
      order of effects inside one call can be stated.
    - Python exceptions that the code can raise on its own data ([KeyError]
      on the priority table, [IndexError] on the delay table) are results of
      the functions that raise them. *)

From Stdlib Require Import ZArith String List Lia Bool.
From stdpp Require Import base gmap strings list option.

Open Scope string_scope.
Open Scope list_scope.
Set Warnings "-register-all".

(** ** JSON values, as [request.get_json()] and [json.loads] produce them *)

Inductive json : Type :=
| JNull
| JBool (b : bool)
| JNum (n : Z)
| JStr (s : string)
| JArr (items : list json)
| JObj (fields : list (string * json)).

Module Py.

(** Truth value of a Python object, as used by [if not data]. *)
Definition truthy (v : json) : bool :=
  match v with
  | JNull => false
  | JBool b => b
  | JNum n => negb (n =? 0)%Z
  | JStr s => negb (String.eqb s "")
  | JArr items => match items with [] => false | _ => true end
  | JObj fields => match fields with [] => false | _ => true end
  end.

(** [needle in haystack] on two strings: substring test. *)
Fixpoint is_substring (needle haystack : string) : bool :=
  String.prefix needle haystack ||
  match haystack with
  | EmptyString => false
  | String _ rest => is_substring needle rest
  end.

(** Key lookup in a dict given by its items. *)
Fixpoint assoc (key : string) (fields : list (string * json)) : option json :=
  match fields with
  | [] => None
  | (k, v) :: rest => if String.eqb k key then Some v else assoc key rest
  end.

(** [field in data]; [None] stands for the [TypeError] raised when
    [data] is not a container. *)
Definition contains (field : string) (data : json) : option bool :=
  match data with
  | JObj fields => Some (match assoc field fields with Some _ => true | None => false end)
  | JArr items =>
      Some (existsb (fun v => match v with JStr s => String.eqb s field | _ => false end) items)
  | JStr s => Some (is_substring field s)
  | _ => None
  end.

(** [data[key]] for a string key; [None] stands for the exception raised
    on anything but a dict holding the key. *)
Definition getitem (data : json) (key : string) : option json :=
  match data with
  | JObj fields => assoc key fields
  | _ => None
  end.

(** [xs[i]] on a list, with Python's negative indices; [None] stands for
    [IndexError]. *)
Definition index {A} (xs : list A) (i : Z) : option A :=
  let n := Z.of_nat (length xs) in
  if (0 <=? i)%Z then xs !! Z.to_nat i
  else if (0 <=? n + i)%Z then xs !! Z.to_nat (n + i)
  else None.

(** The exceptions the engine can raise on its own data. *)
Inductive exn : Type :=
| KeyError (key : string)
| IndexError.

(** [str(e)]: a [KeyError] prints the repr of its key. *)
Definition str (e : exn) : string :=
  match e with
  | KeyError key => ("'" ++ key ++ "'")%string
  | IndexError => "list index out of range"
  end.

Inductive result : Type :=
| Ok
| Raise (e : exn).

End Py.

(** ** config.py *)

Module Config.

Definition MAX_RETRIES : Z := 3.
Definition RETRY_DELAYS : list Z := [1; 4; 9]%Z.
Definition JOB_QUEUE : string := "job_queue".
Definition PRIORITY_SCORES : gmap string Z :=
  <["high" := 1%Z]> (<["low" := 2%Z]> ∅).

End Config.

(** ** models.py *)

Record Job : Type := mkJob {
  job_id : string;
  job_type : string;
  priority : string;
  payload : json;
  status : string;
  retry_count : Z;
  created_at : nat;
  picked_at : option nat;
  completed_at : option nat;
  error_message : option string
}.

Module Models.

(** [Job.__init__] with the id drawn by [uuid4] and the time read. *)
Definition new_job (id jt pr : string) (pl : json) (now : nat) : Job :=
  {| job_id := id; job_type := jt; priority := pr; payload := pl;
     status := "pending"; retry_count := 0; created_at := now;
     picked_at := None; completed_at := None; error_message := None |}.

Definition set_status (s : string) (j : Job) : Job :=
  {| job_id := job_id j; job_type := job_type j; priority := priority j;
     payload := payload j; status := s; retry_count := retry_count j;
     created_at := created_at j; picked_at := picked_at j;
     completed_at := completed_at j; error_message := error_message j |}.

Definition mark_picked (now : nat) (j : Job) : Job :=
  {| job_id := job_id j; job_type := job_type j; priority := priority j;
     payload := payload j; status := "processing";
     retry_count := retry_count j; created_at := created_at j;
     picked_at := Some now; completed_at := completed_at j;
     error_message := error_message j |}.

Definition mark_completed (now : nat) (j : Job) : Job :=
  {| job_id := job_id j; job_type := job_type j; priority := priority j;
     payload := payload j; status := "completed";
     retry_count := retry_count j; created_at := created_at j;
     picked_at := picked_at j; completed_at := Some now;
     error_message := error_message j |}.

Definition mark_failed (msg : string) (now : nat) (j : Job) : Job :=
  {| job_id := job_id j; job_type := job_type j; priority := priority j;
     payload := payload j; status := "failed";
     retry_count := (retry_count j + 1)%Z; created_at := created_at j;
     picked_at := picked_at j; completed_at := Some now;
     error_message := Some msg |}.

Definition should_retry (j : Job) (max_retries : Z) : bool :=
  (retry_count j <? max_retries)%Z.

End Models.

(** ** The world the engine runs in *)

Inductive Event : Type :=
| EvZpopmin (popped : option (string * Z))
| EvZadd (member : string) (score : Z)
| EvSave (job : Job) (ok : bool)
| EvExecute (job : Job) (ok : bool)
| EvShouldRetry (jid : string) (retry : bool)
| EvAlert (jid : string) (msg : string)
| EvSleep (secs : Z).

Record World : Type := mkWorld {
  db : gmap string Job;
  queue : gmap string Z;
  clock : nat;
  trace : list Event
}.

Definition empty_world : World :=
  {| db := ∅; queue := ∅; clock := 0; trace := [] |}.

Definition log (e : Event) (w : World) : World :=
  {| db := db w; queue := queue w; clock := clock w; trace := trace w ++ [e] |}.

Definition tick (w : World) : World :=
  {| db := db w; queue := queue w; clock := S (clock w); trace := trace w |}.

Definition with_db (d : gmap string Job) (w : World) : World :=
  {| db := d; queue := queue w; clock := clock w; trace := trace w |}.

Definition with_queue (q : gmap string Z) (w : World) : World :=
  {| db := db w; queue := q; clock := clock w; trace := trace w |}.

(** [time.sleep(secs)] *)
Definition sleep (secs : Z) (w : World) : World :=
  log (EvSleep secs)
    {| db := db w; queue := queue w; clock := clock w + Z.to_nat secs;
       trace := trace w |}.

(** ** The Redis sorted set *)

Module Broker.

(** Order of the sorted set: by score, then by member. *)
Definition entry_le (a b : string * Z) : bool :=
  (a.2 <? b.2)%Z || ((a.2 =? b.2)%Z && String.leb a.1 b.1).

Definition min_entry (l : list (string * Z)) : option (string * Z) :=
  foldr (fun e acc =>
           match acc with
           | None => Some e
           | Some m => if entry_le e m then Some e else Some m
           end) None l.

Definition zpopmin (w : World) : option (string * Z) * World :=
  match min_entry (map_to_list (queue w)) with
  | Some (member, score) =>
      (Some (member, score),
       log (EvZpopmin (Some (member, score)))
         (with_queue (delete member (queue w)) w))
  | None => (None, log (EvZpopmin None) w)
  end.

Definition zadd (member : string) (score : Z) (w : World) : World :=
  log (EvZadd member score) (with_queue (<[member := score]> (queue w)) w).

Definition zcard (w : World) : nat := size (queue w).

End Broker.

(** ** The outside world: store faults and handler outcomes *)

Record Env : Type := mkEnv {
  store_ok : nat -> bool;
  handler_ok : nat -> Job -> bool
}.

(** An environment in which every store write succeeds. *)
Definition reliable_store (env : Env) : Prop := forall t, store_ok env t = true.

(** ** database.py *)

Module Database.
Section WithEnv.
Variable env : Env.

(** [save_job]: [INSERT OR REPLACE]; an exception is caught and turned
    into the return value [False]. *)
Definition save_job (job : Job) (w : World) : bool * World :=
  let ok := store_ok env (clock w) in
  let w1 := if ok then with_db (<[job_id job := job]> (db w)) w else w in
  (ok, log (EvSave job ok) (tick w1)).

Definition get_job (jid : string) (w : World) : option Job := db w !! jid.

Definition update_job_status (job : Job) (w : World) : bool * World :=
  save_job job w.

End WithEnv.
End Database.

(** ** worker.py *)

Module Worker.
Section WithEnv.
Variable env : Env.

Definition get_next_job (w : World) : option Job * World :=
  let '(result, w1) := Broker.zpopmin w in
  match result with
  | Some (jid, _) =>
      match Database.get_job jid w1 with
      | Some job =>
          if String.eqb (status job) "pending" then
            let job1 := Models.mark_picked (clock w1) job in
            let '(_, w2) := Database.update_job_status env job1 w1 in
            (Some job1, w2)
          else (None, w1)
      | None => (None, w1)
      end
  | None => (None, w1)
  end.

(** The three mock handlers share one shape: everything runs inside a
    [try]; [payload.get] raises on a payload that is not a dict, the
    random draw may raise, and any exception makes the handler return
    [False]. *)
Definition mock_handler (job : Job) (w : World) : bool :=
  match payload job with
  | JObj _ => handler_ok env (clock w) job
  | _ => false
  end.

Definition send_email := mock_handler.
Definition process_data := mock_handler.
Definition generate_report := mock_handler.

Definition execute_job (job : Job) (w : World) : bool * World :=
  let ok :=
    if String.eqb (job_type job) "send_email" then send_email job w
    else if String.eqb (job_type job) "process_data" then process_data job w
    else if String.eqb (job_type job) "generate_report" then generate_report job w
    else false in
  (ok, log (EvExecute job ok) (tick w)).

Definition handle_job_failure (job : Job) (error_message : string) (w : World)
  : Py.result * Job * World :=
  let job1 := Models.mark_failed error_message (clock w) job in
  let retry_first := Models.should_retry job1 Config.MAX_RETRIES in
  let w1 := log (EvShouldRetry (job_id job1) retry_first) w in
  let w2 :=
    if negb retry_first then log (EvAlert (job_id job1) error_message) w1 else w1 in
  let retry := Models.should_retry job1 Config.MAX_RETRIES in
  let w3 := log (EvShouldRetry (job_id job1) retry) w2 in
  if retry then
    match Py.index Config.RETRY_DELAYS (retry_count job1 - 1) with
    | None => (Py.Raise Py.IndexError, job1, w3)
    | Some retry_delay =>
        let job2 := Models.set_status "pending" job1 in
        let '(_, w4) := Database.update_job_status env job2 w3 in
        let w5 := sleep retry_delay w4 in
        match Config.PRIORITY_SCORES !! priority job2 with
        | None => (Py.Raise (Py.KeyError (priority job2)), job2, w5)
        | Some priority_score =>
            (Py.Ok, job2, Broker.zadd (job_id job2) priority_score w5)
        end
    end
  else
    let '(_, w4) := Database.update_job_status env job1 w3 in
    (Py.Ok, job1, w4).

(** [process_job]: the call of [handle_job_failure] on a [False] outcome
    sits inside the [try], so an exception it raises is handled by a
    second call on the same, already mutated, job object. *)
Definition process_job (job : Job) (w : World) : Py.result * Job * World :=
  let '(success, w1) := execute_job job w in
  if success then
    let job1 := Models.mark_completed (clock w1) job in
    let '(_, w2) := Database.update_job_status env job1 w1 in
    (Py.Ok, job1, w2)
  else
    match handle_job_failure job "Job execution failed" w1 with
    | (Py.Ok, job1, w2) => (Py.Ok, job1, w2)
    | (Py.Raise e, job1, w2) => handle_job_failure job1 (Py.str e) w2
    end.

(** One turn of the loop of [start]. *)
Definition worker_iteration (w : World) : Py.result * World :=
  let '(job, w1) := get_next_job w in
  match job with
  | Some j => let '(r, _, w2) := process_job j w1 in (r, w2)
  | None => (Py.Ok, sleep 2 w1)
  end.

(** [start], for [n] turns of the loop; an exception leaving
    [process_job] ends the loop. *)
Fixpoint start (n : nat) (w : World) : Py.result * World :=
  match n with
  | O => (Py.Ok, w)
  | S n' =>
      match worker_iteration w with
      | (Py.Ok, w1) => start n' w1
      | (Py.Raise e, w1) => (Py.Raise e, w1)
      end
  end.

End WithEnv.
End Worker.

(** ** app.py *)

Record Response : Type := mkResponse {
  status_code : Z;
  message : string;
  submitted : option Job
}.

Module App.
Section WithEnv.
Variable env : Env.

Definition required_fields : list string := ["job_type"; "priority"; "payload"].
Definition valid_priorities : list string := ["high"; "low"].
Definition valid_job_types : list string :=
  ["send_email"; "process_data"; "generate_report"].

Inductive field_check : Type :=
| AllPresent
| Missing (field : string)
| CheckRaised.

(** The loop over [required_fields]. *)
Fixpoint check_required (fields : list string) (data : json) : field_check :=
  match fields with
  | [] => AllPresent
  | field :: rest =>
      match Py.contains field data with
      | None => CheckRaised
      | Some false => Missing field
      | Some true => check_required rest data
      end
  end.

(** [value in names] for a list of strings: only a string can be equal
    to one of them. *)
Definition one_of (names : list string) (value : json) : option string :=
  match value with
  | JStr s => if existsb (String.eqb s) names then Some s else None
  | _ => None
  end.

Definition error (code : Z) (msg : string) : Response :=
  {| status_code := code; message := msg; submitted := None |}.

Definition internal_error : Response := error 500 "Internal server error".

(** [submit_job]: [data] is the parsed request body, [new_id] the id
    drawn by [uuid4].  The texts of the two longer error messages are
    shortened. *)
Definition submit_job (new_id : string) (data : json) (w : World)
  : Response * World :=
  if negb (Py.truthy data) then (error 400 "No JSON data provided", w) else
  match check_required required_fields data with
  | CheckRaised => (internal_error, w)
  | Missing field => (error 400 ("Missing field: " ++ field)%string, w)
  | AllPresent =>
      match Py.getitem data "priority" with
      | None => (internal_error, w)
      | Some pr =>
          match one_of valid_priorities pr with
          | None => (error 400 "Priority must be 'high' or 'low'", w)
          | Some pr_name =>
              match Py.getitem data "job_type" with
              | None => (internal_error, w)
              | Some jt =>
                  match one_of valid_job_types jt with
                  | None => (error 400 "Invalid job_type", w)
                  | Some jt_name =>
                      match Py.getitem data "payload" with
                      | None => (internal_error, w)
                      | Some pl =>
                          let job := Models.new_job new_id jt_name pr_name pl (clock w) in
                          let '(saved, w1) := Database.save_job env job w in
                          if negb saved then
                            (error 500 "Failed to save job to database", w1)
                          else
                            match Config.PRIORITY_SCORES !! priority job with
                            | None => (internal_error, w1)
                            | Some priority_score =>
                                let w2 := Broker.zadd (job_id job) priority_score w1 in
                                ({| status_code := 201;
                                    message := "Job submitted successfully";
                                    submitted := Some job |}, w2)
                            end
                      end
                  end
              end
          end
      end
  end.

End WithEnv.
End App.

(** * Properties *)

(** ** The sorted set *)

Module BrokerFacts.
Import Broker.

Lemma entry_le_score a b : entry_le a b = true -> (a.2 <= b.2)%Z.
Proof.
  unfold entry_le. intros H.
  apply orb_true_iff in H as [H | H].
  - apply Z.ltb_lt in H. lia.
  - apply andb_true_iff in H as [H _]. apply Z.eqb_eq in H. lia.
Qed.

Lemma entry_le_false_score a b : entry_le a b = false -> (b.2 <= a.2)%Z.
Proof.
  unfold entry_le. intros H.
  apply orb_false_iff in H as [H _]. apply Z.ltb_ge in H. lia.
Qed.

Lemma min_entry_nil l : min_entry l = None <-> l = [].
Proof.
  split; [| intros ->; reflexivity].
  destruct l as [| e l]; [reflexivity |]. simpl.
  destruct (min_entry l) as [m |]; [destruct (entry_le e m) |]; discriminate.
Qed.

Lemma min_entry_elem l e : min_entry l = Some e -> e ∈ l.
Proof.
  revert e. induction l as [| x l IH]; intros e; simpl; [discriminate |].
  destruct (min_entry l) as [m |] eqn:Hm.
  - destruct (entry_le x m); intros [= <-].
    + apply list_elem_of_here.
    + apply list_elem_of_further. by apply IH.
  - intros [= <-]. apply list_elem_of_here.
Qed.

Lemma min_entry_least l e :
  min_entry l = Some e -> forall e', e' ∈ l -> (e.2 <= e'.2)%Z.
Proof.
  revert e. induction l as [| x l IH]; intros e; simpl; [discriminate |].
  intros He e' Hin.
  destruct (min_entry l) as [m |] eqn:Hm.
  - destruct (entry_le x m) eqn:Hle; injection He as <-.
    + apply elem_of_cons in Hin as [-> | Hin]; [lia |].
      apply entry_le_score in Hle. specialize (IH m eq_refl e' Hin). lia.
    + apply elem_of_cons in Hin as [-> | Hin].
      * by apply entry_le_false_score.
      * by apply IH.
  - injection He as <-. apply min_entry_nil in Hm. subst l.
    apply elem_of_cons in Hin as [-> | Hin]; [lia |].
    by apply not_elem_of_nil in Hin.
Qed.

(** What [ZPOPMIN] does on a non-empty set. *)
Lemma zpopmin_some w member score w' :
  zpopmin w = (Some (member, score), w') ->
  queue w !! member = Some score /\
  w' = log (EvZpopmin (Some (member, score)))
         (with_queue (delete member (queue w)) w) /\
  forall m s, queue w !! m = Some s -> (score <= s)%Z.
Proof.
  unfold zpopmin. destruct (min_entry (map_to_list (queue w))) as [[m s] |] eqn:Hmin;
    [| discriminate].
  intros [= -> -> <-]. split; [| split; [reflexivity |]].
  - apply min_entry_elem in Hmin. by apply elem_of_map_to_list in Hmin.
  - intros m' s' Hm'. apply elem_of_map_to_list in Hm'.
    apply (min_entry_least _ _ Hmin) in Hm'. exact Hm'.
Qed.

(** What [ZPOPMIN] does on the empty set. *)
Lemma zpopmin_none w r w' :
  zpopmin w = (r, w') -> (r = None <-> queue w = ∅).
Proof.
  unfold zpopmin. destruct (min_entry (map_to_list (queue w))) as [[m s] |] eqn:Hmin.
  - intros [= <- <-]. split; [discriminate |]. intros He.
    apply min_entry_elem in Hmin. rewrite He, map_to_list_empty in Hmin.
    by apply not_elem_of_nil in Hmin.
  - intros [= <- <-]. split; [| reflexivity]. intros _.
    apply min_entry_nil in Hmin. by apply map_to_list_empty_iff in Hmin.
Qed.

Lemma zpopmin_nonempty w member score :
  queue w !! member = Some score ->
  exists m s w', zpopmin w = (Some (m, s), w').
Proof.
  intros Hq. destruct (zpopmin w) as [[[m s] |] w'] eqn:Hpop; [by eauto |].
  apply zpopmin_none in Hpop. destruct Hpop as [Hpop _].
  rewrite (Hpop eq_refl), lookup_empty in Hq. discriminate.
Qed.

End BrokerFacts.

(** ** The store *)

Module DatabaseFacts.
Import Database.

Lemma save_job_trace env job w :
  trace (save_job env job w).2 = trace w ++ [EvSave job (store_ok env (clock w))].
Proof. unfold save_job. simpl. by destruct (store_ok env (clock w)). Qed.

Lemma save_job_queue env job w : queue (save_job env job w).2 = queue w.
Proof. unfold save_job. simpl. by destruct (store_ok env (clock w)). Qed.

Lemma save_job_clock env job w : clock (save_job env job w).2 = S (clock w).
Proof. unfold save_job. simpl. by destruct (store_ok env (clock w)). Qed.

Lemma save_job_db env job w :
  db (save_job env job w).2 =
    if store_ok env (clock w) then <[job_id job := job]> (db w) else db w.
Proof. unfold save_job. simpl. by destruct (store_ok env (clock w)). Qed.

Lemma save_job_result env job w : (save_job env job w).1 = store_ok env (clock w).
Proof. reflexivity. Qed.

End DatabaseFacts.

(** Projections of a world after one effect, as a rewrite database. *)

Lemma trace_log e w : trace (log e w) = trace w ++ [e].
Proof. reflexivity. Qed.
Lemma db_log e w : db (log e w) = db w.
Proof. reflexivity. Qed.
Lemma queue_log e w : queue (log e w) = queue w.
Proof. reflexivity. Qed.
Lemma clock_log e w : clock (log e w) = clock w.
Proof. reflexivity. Qed.

Lemma trace_sleep d w : trace (sleep d w) = trace w ++ [EvSleep d].
Proof. reflexivity. Qed.
Lemma db_sleep d w : db (sleep d w) = db w.
Proof. reflexivity. Qed.
Lemma queue_sleep d w : queue (sleep d w) = queue w.
Proof. reflexivity. Qed.

Lemma trace_zadd m s w : trace (Broker.zadd m s w) = trace w ++ [EvZadd m s].
Proof. reflexivity. Qed.
Lemma db_zadd m s w : db (Broker.zadd m s w) = db w.
Proof. reflexivity. Qed.
Lemma queue_zadd m s w : queue (Broker.zadd m s w) = <[m := s]> (queue w).
Proof. reflexivity. Qed.

Lemma trace_with_queue q w : trace (with_queue q w) = trace w.
Proof. reflexivity. Qed.
Lemma db_with_queue q w : db (with_queue q w) = db w.
Proof. reflexivity. Qed.
Lemma queue_with_queue q w : queue (with_queue q w) = q.
Proof. reflexivity. Qed.
Lemma clock_with_queue q w : clock (with_queue q w) = clock w.
Proof. reflexivity. Qed.

Lemma trace_tick w : trace (tick w) = trace w.
Proof. reflexivity. Qed.
Lemma db_tick w : db (tick w) = db w.
Proof. reflexivity. Qed.
Lemma queue_tick w : queue (tick w) = queue w.
Proof. reflexivity. Qed.
Lemma clock_tick w : clock (tick w) = S (clock w).
Proof. reflexivity. Qed.

Create Rewrite HintDb world.

#[global] Hint Rewrite
  trace_log db_log queue_log clock_log
  trace_sleep db_sleep queue_sleep
  trace_zadd db_zadd queue_zadd
  trace_with_queue db_with_queue queue_with_queue clock_with_queue
  trace_tick db_tick queue_tick clock_tick
  DatabaseFacts.save_job_trace DatabaseFacts.save_job_queue
  DatabaseFacts.save_job_clock DatabaseFacts.save_job_db : world.

(** ** Equations of the worker's steps *)

Module WorkerFacts.
Import Models Worker.

Section Steps.
Variable env : Env.

(** The record [handle_job_failure] works on after [mark_failed]. *)
Definition failed_record (job : Job) (msg : string) (w : World) : Job :=
  mark_failed msg (clock w) job.

(** The record the retry path persists and re-queues. *)
Definition retried_record (job : Job) (msg : string) (w : World) : Job :=
  set_status "pending" (failed_record job msg w).

(** The world at the point where [handle_job_failure] has evaluated
    [should_retry] twice and takes the retry branch. *)
Definition decided_retry (job : Job) (w : World) : World :=
  log (EvShouldRetry (job_id job) true) (log (EvShouldRetry (job_id job) true) w).

(** The same point on the give-up path, after the alert line is written. *)
Definition decided_final (job : Job) (msg : string) (w : World) : World :=
  log (EvShouldRetry (job_id job) false)
    (log (EvAlert (job_id job) msg) (log (EvShouldRetry (job_id job) false) w)).

Lemma retry_delay_in_range (k : Z) :
  (1 <= k < Config.MAX_RETRIES)%Z ->
  exists d, Py.index Config.RETRY_DELAYS (k - 1) = Some d /\
            ((k = 1 /\ d = 1) \/ (k = 2 /\ d = 4))%Z.
Proof.
  unfold Config.MAX_RETRIES. intros Hk.
  assert (k = 1 \/ k = 2)%Z as [-> | ->] by lia.
  - exists 1%Z. split; [reflexivity | by left].
  - exists 4%Z. split; [reflexivity | by right].
Qed.

(** The retry path, when neither table lookup raises. *)
Lemma handle_job_failure_retry job msg w sc :
  (0 <= retry_count job)%Z ->
  (retry_count job + 1 < Config.MAX_RETRIES)%Z ->
  Config.PRIORITY_SCORES !! priority job = Some sc ->
  exists d,
    Py.index Config.RETRY_DELAYS (retry_count job + 1 - 1) = Some d /\
    handle_job_failure env job msg w =
      (Py.Ok, retried_record job msg w,
       Broker.zadd (job_id job) sc
         (sleep d
            (Database.update_job_status env (retried_record job msg w)
               (decided_retry job w)).2)).
Proof.
  intros H0 Hlt Hsc.
  destruct (retry_delay_in_range (retry_count job + 1)) as (d & Hd & _); [lia |].
  exists d. split; [exact Hd |].
  unfold handle_job_failure, should_retry. simpl.
  apply Z.ltb_lt in Hlt. rewrite Hlt. simpl. rewrite Hd.
  simpl. rewrite Hsc. reflexivity.
Qed.

(** The give-up path. *)
Lemma handle_job_failure_final job msg w :
  (Config.MAX_RETRIES <= retry_count job + 1)%Z ->
  handle_job_failure env job msg w =
    (Py.Ok, failed_record job msg w,
     (Database.update_job_status env (failed_record job msg w)
        (decided_final job msg w)).2).
Proof.
  intros Hge. unfold handle_job_failure, should_retry. simpl.
  apply Z.ltb_ge in Hge. rewrite Hge. reflexivity.
Qed.

End Steps.
End WorkerFacts.

(** ** Concrete worlds used to run the code *)

Module Samples.

(** Every store write succeeds, every handler draw fails. *)
Definition env_failing : Env :=
  {| store_ok := fun _ => true; handler_ok := fun _ _ => false |}.

(** Every store write succeeds, every handler draw succeeds. *)
Definition env_succeeding : Env :=
  {| store_ok := fun _ => true; handler_ok := fun _ _ => true |}.

Definition email_payload : json :=
  JObj [("to", JStr "user1@example.com"); ("subject", JStr "Hello")].

(** A job as the dispatcher hands it to [process_job]. *)
Definition picked_job : Job :=
  Models.mark_picked 1 (Models.new_job "job-a" "send_email" "high" email_payload 0).

Definition world_picked : World :=
  {| db := <["job-a" := picked_job]> ∅; queue := ∅; clock := 2; trace := [] |}.

(** A broker whose least entry is stale: job-a is completed, job-b is
    pending. *)
Definition done_job : Job :=
  Models.mark_completed 2
    (Models.mark_picked 1 (Models.new_job "job-a" "send_email" "high" email_payload 0)).

Definition waiting_job : Job :=
  Models.new_job "job-b" "process_data" "low" (JObj []) 3.

Definition world_stale : World :=
  {| db := <["job-a" := done_job]> (<["job-b" := waiting_job]> ∅);
     queue := <["job-a" := 1%Z]> (<["job-b" := 2%Z]> ∅);
     clock := 4; trace := [] |}.

(** A well-formed submission of job-a and the world it leaves. *)
Definition submit_body : json :=
  JObj [("job_type", JStr "send_email"); ("priority", JStr "high");
        ("payload", email_payload)].

Definition submitted_job : Job :=
  Models.new_job "job-a" "send_email" "high" email_payload 0.

End Samples.

(** ** The dispatcher *)

Module Dispatcher.
Import Models Worker.

Definition is_pop (e : Event) : bool :=
  match e with EvZpopmin _ => true | _ => false end.

Definition pops (evs : list Event) : nat := length (List.filter is_pop evs).

(** The dispatcher on [world_stale] returns nothing after a single pop
    and leaves the pending job-b in the broker. *)
Lemma stale_entry_ends_the_call :
  exists w',
    get_next_job Samples.env_failing Samples.world_stale = (None, w') /\
    pops (trace w') = 1 /\
    queue w' !! "job-b" = Some 2%Z /\
    db w' !! "job-b" = Some Samples.waiting_job /\
    status Samples.waiting_job = "pending".
Proof.
  eexists. split; [vm_compute; reflexivity |].
  repeat split; vm_compute; reflexivity.
Qed.

(** C3, as amended: when the popped entry refers to a record that is not
    pending, [get_next_job] drops that one entry, writes nothing to the
    store and returns nothing for this call; the rest of the broker is
    left for later calls. *)
Theorem stale_entry_dropped env w jid score w1 job :
  Broker.zpopmin w = (Some (jid, score), w1) ->
  Database.get_job jid w1 = Some job ->
  status job <> "pending" ->
  get_next_job env w = (None, w1) /\
  db w1 = db w /\
  queue w1 = delete jid (queue w) /\
  trace w1 = trace w ++ [EvZpopmin (Some (jid, score))].
Proof.
  intros Hpop Hget Hst.
  unfold get_next_job. rewrite Hpop, Hget.
  apply String.eqb_neq in Hst. rewrite Hst.
  apply BrokerFacts.zpopmin_some in Hpop as (_ & -> & _).
  repeat split; reflexivity.
Qed.

Lemma stale_entry_dropped_witness :
  exists w1,
    get_next_job Samples.env_failing Samples.world_stale = (None, w1) /\
    db w1 = db Samples.world_stale /\
    queue w1 = delete "job-a" (queue Samples.world_stale) /\
    trace w1 = trace Samples.world_stale ++ [EvZpopmin (Some ("job-a", 1%Z))].
Proof.
  eexists.
  apply (stale_entry_dropped Samples.env_failing Samples.world_stale "job-a" 1%Z _
           Samples.done_job).
  - vm_compute. reflexivity.
  - vm_compute. reflexivity.
  - vm_compute. discriminate.
Defined.

End Dispatcher.

(** ** Failure handling: order of effects *)

Module FailureHandling.
Import Models Worker WorkerFacts.

(** The events a call appended to the trace. *)
Definition new_events (before after : World) : list Event :=
  drop (length (trace before)) (trace after).

Lemma new_events_app w w' evs : trace w' = trace w ++ evs -> new_events w w' = evs.
Proof. intros H. unfold new_events. rewrite H. apply drop_app_length. Qed.


(** Does the sleep come before the first store write? *)
Fixpoint sleep_precedes_persist (evs : list Event) : bool :=
  match evs with
  | [] => false
  | EvSleep _ :: _ => true
  | EvSave _ _ :: _ => false
  | _ :: rest => sleep_precedes_persist rest
  end.


(** The delay table read the way [handle_job_failure] reads it, by the
    attempt count after the increment. *)
Definition backoff (k : Z) : option Z := Py.index Config.RETRY_DELAYS (k - 1).

(** The four ways a call of [handle_job_failure] can go. *)
Lemma handle_job_failure_shape env job msg w :
  let job1 := failed_record job msg w in
  let jid := job_id job in
  (should_retry job1 Config.MAX_RETRIES = false /\
   handle_job_failure env job msg w =
     (Py.Ok, job1,
      (Database.update_job_status env job1 (decided_final job msg w)).2)) \/
  (should_retry job1 Config.MAX_RETRIES = true /\
   backoff (retry_count job1) = None /\
   handle_job_failure env job msg w = (Py.Raise Py.IndexError, job1, decided_retry job w)) \/
  (should_retry job1 Config.MAX_RETRIES = true /\
   exists d, backoff (retry_count job1) = Some d /\
     let w5 := sleep d (Database.update_job_status env (retried_record job msg w)
                          (decided_retry job w)).2 in
     (Config.PRIORITY_SCORES !! priority job = None /\
      handle_job_failure env job msg w =
        (Py.Raise (Py.KeyError (priority job)), retried_record job msg w, w5)) \/
     (exists sc, Config.PRIORITY_SCORES !! priority job = Some sc /\
      handle_job_failure env job msg w =
        (Py.Ok, retried_record job msg w, Broker.zadd jid sc w5))).
Proof.
  simpl. unfold handle_job_failure, backoff.
  destruct (should_retry (failed_record job msg w) Config.MAX_RETRIES) eqn:Hretry.
  - right. unfold failed_record in Hretry. rewrite Hretry. simpl.
    destruct (Py.index Config.RETRY_DELAYS (retry_count job + 1 - 1)) as [d |] eqn:Hd.
    + right. split; [reflexivity |]. exists d. split; [reflexivity |]. simpl.
      destruct (Config.PRIORITY_SCORES !! priority job) as [sc |] eqn:Hsc.
      * right. exists sc. split; reflexivity.
      * left. split; reflexivity.
    + left. repeat split; reflexivity.
  - left. unfold failed_record in Hretry. rewrite Hretry. split; reflexivity.
Qed.



(** A first failure of job-a: the pending record is written before the
    worker sleeps, not after. *)
Lemma persist_precedes_sleep :
  let w' := (handle_job_failure Samples.env_failing Samples.picked_job
               "Job execution failed" Samples.world_picked).2 in
  sleep_precedes_persist (new_events Samples.world_picked w') = false /\
  exists pending_record,
    status pending_record = "pending" /\
    new_events Samples.world_picked w' =
      [EvShouldRetry "job-a" true; EvShouldRetry "job-a" true;
       EvSave pending_record true; EvSleep 1; EvZadd "job-a" 1].
Proof.
  split; [vm_compute; reflexivity |].
  eexists. split; [| vm_compute; reflexivity]. reflexivity.
Qed.

(** C8, as amended: on every retry path that runs to its end the worker
    first sets the status back to pending and persists, then sleeps for
    the backoff of the attempt count, then inserts the job id into the
    broker; the score is the one the priority table gives for the job's
    priority class, which the retry leaves unchanged and which is the
    score [submit_job] assigns to a job of that class. *)
Theorem retry_path_order env job msg w job' w' :
  handle_job_failure env job msg w = (Py.Ok, job', w') ->
  should_retry (failed_record job msg w) Config.MAX_RETRIES = true ->
  exists d sc,
    backoff (retry_count job') = Some d /\
    Config.PRIORITY_SCORES !! priority job = Some sc /\
    trace w' = trace w ++
      [EvShouldRetry (job_id job) true; EvShouldRetry (job_id job) true;
       EvSave job' (store_ok env (clock w)); EvSleep d; EvZadd (job_id job) sc] /\
    status job' = "pending" /\
    priority job' = priority job /\
    queue w' !! job_id job = Some sc /\
    forall new_id data w0 resp w1 submitted_job,
      App.submit_job env new_id data w0 = (resp, w1) ->
      submitted resp = Some submitted_job ->
      priority submitted_job = priority job ->
      queue w1 !! job_id submitted_job = Some sc.
Proof.
  intros Hcall Hretry.
  destruct (handle_job_failure_shape env job msg w)
    as [[Hr _] | [(_ & _ & Heq) | (_ & d & Hd & [[_ Heq] | (sc & Hsc & Heq)])]];
    [congruence | rewrite Heq in Hcall; discriminate
     | rewrite Heq in Hcall; discriminate |].
  rewrite Heq in Hcall.
  apply pair_equal_spec in Hcall as [Hcall <-].
  apply pair_equal_spec in Hcall as [_ <-].
  exists d, sc. split; [exact Hd |]. split; [exact Hsc |].
  unfold Database.update_job_status, decided_retry.
  autorewrite with world. rewrite <- !app_assoc. cbn [app].
  split; [reflexivity |]. split; [reflexivity |]. split; [reflexivity |].
  split; [apply lookup_insert_eq |].
  intros new_id data w0 resp w1 sj Hsub Hresp Hprio.
    unfold App.submit_job in Hsub.
    repeat match type of Hsub with
           | (if ?c then _ else _) = _ => destruct c
           | match ?c with _ => _ end = _ => destruct c eqn:?
           | (_, _) = (_, _) => injection Hsub as <- <-
           end; simpl in Hresp; try discriminate.
  injection Hresp as <-. autorewrite with world.
  simpl in *. rewrite lookup_insert_eq. congruence.
Qed.

Lemma retry_path_order_witness :
  exists job' w' d sc,
    handle_job_failure Samples.env_failing Samples.picked_job
      "Job execution failed" Samples.world_picked = (Py.Ok, job', w') /\
    backoff (retry_count job') = Some d /\
    Config.PRIORITY_SCORES !! priority Samples.picked_job = Some sc /\
    status job' = "pending".
Proof.
  eexists _, _.
  destruct (retry_path_order Samples.env_failing Samples.picked_job
              "Job execution failed" Samples.world_picked _ _ eq_refl eq_refl)
    as (d & sc & Hd & Hsc & _ & Hst & _).
  exists d, sc. split; [reflexivity |]. split; [exact Hd |]. split; [exact Hsc |].
  exact Hst.
Defined.

Definition is_sleep (e : Event) : bool :=
  match e with EvSleep _ => true | _ => false end.

Lemma backoff_values :
  backoff 1 = Some 1%Z /\ backoff 2 = Some 4%Z /\ backoff 3 = Some 9%Z.
Proof. repeat split. Qed.

(** C7: the delay table has as many entries as the retry bound, read
    1-based by attempt number it is non-decreasing, and the delay slept
    before the k-th retry is its k-th entry. *)
Theorem backoff_schedule env job msg w k :
  retry_count (failed_record job msg w) = k ->
  (1 <= k < Config.MAX_RETRIES)%Z ->
  Z.of_nat (length Config.RETRY_DELAYS) = Config.MAX_RETRIES /\
  Config.RETRY_DELAYS = [1; 4; 9]%Z /\
  (forall i, (1 <= i < Config.MAX_RETRIES)%Z ->
     exists a b, backoff i = Some a /\ backoff (i + 1) = Some b /\ (a <= b)%Z) /\
  exists d,
    Config.RETRY_DELAYS !! Z.to_nat (k - 1) = Some d /\
    backoff k = Some d /\
    List.filter is_sleep (new_events w (handle_job_failure env job msg w).2) =
      [EvSleep d].
Proof.
  intros Hk Hrange.
  split; [reflexivity |]. split; [reflexivity |]. split.
  - intros i Hi. unfold Config.MAX_RETRIES in Hi.
    assert (i = 1 \/ i = 2)%Z as [-> | ->] by lia.
    + exists 1%Z, 4%Z. repeat split. lia.
    + exists 4%Z, 9%Z. repeat split. lia.
  - destruct (handle_job_failure_shape env job msg w)
      as [[Hr _] | [(_ & Hnone & _) | (_ & d & Hd & Hcall)]].
    + unfold should_retry in Hr. apply Z.ltb_ge in Hr. lia.
    + rewrite Hk in Hnone.
      destruct (retry_delay_in_range k Hrange) as (d & Hd & _).
      unfold backoff in Hnone. congruence.
    + rewrite Hk in Hd. exists d. split; [| split; [exact Hd |]].
      * unfold backoff, Py.index in Hd.
        destruct (0 <=? k - 1)%Z eqn:Hpos; [exact Hd |].
        apply Z.leb_gt in Hpos. lia.
      * cbn zeta in Hcall.
        assert (exists tail, new_events w (handle_job_failure env job msg w).2 =
                  [EvShouldRetry (job_id job) true; EvShouldRetry (job_id job) true;
                   EvSave (retried_record job msg w) (store_ok env (clock w));
                   EvSleep d] ++ tail /\ List.filter is_sleep tail = [])
          as (tail & -> & Htail).
        { destruct Hcall as [[_ ->] | (sc & _ & ->)]; cbn [snd].
          - exists []. split; [| reflexivity]. apply new_events_app.
            unfold Database.update_job_status, decided_retry.
            autorewrite with world. by rewrite <- !app_assoc.
          - exists [EvZadd (job_id job) sc]. split; [| reflexivity].
            apply new_events_app.
            unfold Database.update_job_status, decided_retry.
            autorewrite with world. by rewrite <- !app_assoc. }
        rewrite List.filter_app, Htail. reflexivity.
Qed.

Lemma backoff_schedule_witness :
  exists d,
    backoff 1 = Some d /\
    List.filter is_sleep
      (new_events Samples.world_picked
         (handle_job_failure Samples.env_failing Samples.picked_job
            "Job execution failed" Samples.world_picked).2) = [EvSleep d].
Proof.
  destruct (backoff_schedule Samples.env_failing Samples.picked_job
              "Job execution failed" Samples.world_picked 1 eq_refl)
    as (_ & _ & _ & d & _ & Hd & Hsleep).
  - unfold Config.MAX_RETRIES. lia.
  - exists d. split; [exact Hd | exact Hsleep].
Defined.

End FailureHandling.

(** ** Submission: validation comes before any write *)

Module Submission.
Import App.

Definition is_priority (v : json) : Prop := v = JStr "high" \/ v = JStr "low".

Definition is_job_type (v : json) : Prop :=
  v = JStr "send_email" \/ v = JStr "process_data" \/ v = JStr "generate_report".

(** What the handler's own tests find wrong with a body: the test
    [field in data] says that a required field is missing, or the body
    carries a priority that is neither high nor low, or a job_type that is
    not a registered kind. *)
Definition reported_invalid (data : json) : Prop :=
  (exists f, f ∈ required_fields /\ Py.contains f data = Some false) \/
  (exists p, Py.getitem data "priority" = Some p /\ ~ is_priority p) \/
  (exists t, Py.getitem data "job_type" = Some t /\ ~ is_job_type t).

(** A request body that must be turned down: it is missing a required
    field (it is an object without that key, or no object at all and so
    without any field), or it carries a priority that is neither high nor
    low, or a job_type that is not a registered kind. *)
Definition invalid_body (data : json) : Prop :=
  (exists f, f ∈ required_fields /\ Py.getitem data f = None) \/
  (exists p, Py.getitem data "priority" = Some p /\ ~ is_priority p) \/
  (exists t, Py.getitem data "job_type" = Some t /\ ~ is_job_type t).

Lemma contains_defined f g data b :
  Py.contains f data = Some b -> exists b', Py.contains g data = Some b'.
Proof. destruct data; simpl; try discriminate; by eauto. Qed.

Lemma getitem_contains data key v :
  Py.getitem data key = Some v -> Py.contains key data = Some true.
Proof. destruct data; simpl; try discriminate. by intros ->. Qed.

Lemma one_of_priorities v s : one_of valid_priorities v = Some s -> is_priority v.
Proof.
  destruct v; simpl; try discriminate.
  destruct (String.eqb_spec s0 "high") as [-> | _]; [by left |].
  destruct (String.eqb_spec s0 "low") as [-> | _]; [by right |]. discriminate.
Qed.

Lemma one_of_job_types v s : one_of valid_job_types v = Some s -> is_job_type v.
Proof.
  destruct v; simpl; try discriminate.
  destruct (String.eqb_spec s0 "send_email") as [-> | _]; [by left |].
  destruct (String.eqb_spec s0 "process_data") as [-> | _]; [by right; left |].
  destruct (String.eqb_spec s0 "generate_report") as [-> | _]; [by right; right |].
  discriminate.
Qed.

Lemma one_of_priorities_scored v s :
  one_of valid_priorities v = Some s -> is_Some (Config.PRIORITY_SCORES !! s).
Proof.
  destruct v; simpl; try discriminate.
  destruct (String.eqb_spec s0 "high") as [-> | _].
  - intros [= <-]. by eexists.
  - destruct (String.eqb_spec s0 "low") as [-> | _]; [| discriminate].
    intros [= <-]. by eexists.
Qed.

(** [submit_job] touches the store and the broker only on its way to a
    201 or to the 500 of a failed store write; every other answer leaves
    the world as it was, whatever the body. *)
Lemma submit_job_writes env new_id data w resp w' :
  submit_job env new_id data w = (resp, w') ->
  w' = w \/ status_code resp = 201%Z \/
  (status_code resp = 500%Z /\ message resp = "Failed to save job to database" /\
   db w' = db w /\ queue w' = queue w).
Proof.
  unfold submit_job. intros H.
  repeat match type of H with
         | (if ?c then _ else _) = _ => destruct c eqn:?
         | match ?c with _ => _ end = _ => destruct c eqn:?
         | (_, _) = (_, _) => apply pair_equal_spec in H as [<- <-]
         end; auto.
  all: try match goal with
           | Hp : one_of valid_priorities _ = Some _,
             Hn : Config.PRIORITY_SCORES !! _ = None |- _ =>
               exfalso; apply one_of_priorities_scored in Hp as [sc Hsc];
               simpl in Hn; congruence
           end.
  right. right. simpl.
  match goal with
  | Hs : Database.save_job _ ?j _ = (?b, ?w1), Hb : negb ?b = true |- _ =>
      destruct b; [discriminate |];
      pose proof (DatabaseFacts.save_job_db env j w) as Hdb;
      pose proof (DatabaseFacts.save_job_queue env j w) as Hq;
      pose proof (DatabaseFacts.save_job_result env j w) as Hres;
      rewrite Hs in Hdb, Hq, Hres; simpl in Hdb, Hq, Hres
  end.
  rewrite <- Hres in Hdb. auto.
Qed.

(** A body on which one of the handler's tests fails is answered with 400
    and changes nothing. *)
Lemma reported_invalid_rejected env new_id data w :
  reported_invalid data ->
  exists resp,
    submit_job env new_id data w = (resp, w) /\
    status_code resp = 400%Z /\
    submitted resp = None.
Proof.
  intros Hbad. unfold submit_job.
  destruct (Py.truthy data); cbn [negb]; [| eexists; simpl; by eauto].
  assert (exists b, Py.contains "job_type" data = Some b) as [b1 H1].
  { destruct Hbad as [(f & _ & Hf) | [(p & Hp & _) | (t & Ht & _)]].
    - by eapply contains_defined.
    - apply getitem_contains in Hp. by eapply contains_defined.
    - apply getitem_contains in Ht. by eauto. }
  destruct (contains_defined _ "priority" _ _ H1) as [b2 H2].
  destruct (contains_defined _ "payload" _ _ H1) as [b3 H3].
  unfold required_fields, check_required. rewrite H1, H2, H3.
  destruct b1; [| eexists; simpl; by eauto].
  destruct b2; [| eexists; simpl; by eauto].
  destruct b3; [| eexists; simpl; by eauto].
  destruct (Py.getitem data "priority") as [p |] eqn:Hp.
  2: { exfalso. destruct Hbad as [(f & Hf & Hnone) | [(p' & Hp' & _) | (t' & Ht' & _)]].
       - unfold required_fields in Hf.
         repeat (apply elem_of_cons in Hf as [-> | Hf]; [congruence |]).
         by apply not_elem_of_nil in Hf.
       - congruence.
       - destruct data; simpl in *; try congruence.
         rewrite Hp in H2. discriminate. }
  destruct (one_of valid_priorities p) as [pn |] eqn:Hpn; [| eexists; simpl; by eauto].
  destruct (Py.getitem data "job_type") as [t |] eqn:Ht.
  2: { exfalso. destruct data; simpl in *; try congruence.
       rewrite Ht in H1. discriminate. }
  destruct (one_of valid_job_types t) as [tn |] eqn:Htn; [| eexists; simpl; by eauto].
  exfalso. destruct Hbad as [(f & Hf & Hnone) | [(p' & Hp' & Hnot) | (t' & Ht' & Hnot)]].
  - unfold required_fields in Hf.
    repeat (apply elem_of_cons in Hf as [-> | Hf]; [congruence |]).
    by apply not_elem_of_nil in Hf.
  - apply Hnot. rewrite Hp in Hp'. injection Hp' as <-. by eapply one_of_priorities.
  - apply Hnot. rewrite Ht in Ht'. injection Ht' as <-. by eapply one_of_job_types.
Qed.

(** An object that must be turned down is found out by the handler's
    tests. *)
Lemma object_invalid_reported fields :
  invalid_body (JObj fields) -> reported_invalid (JObj fields).
Proof.
  intros [(f & Hf & Hnone) | [H | H]]; [left | right; by left | right; by right].
  exists f. split; [exact Hf |]. simpl in *. by rewrite Hnone.
Qed.

(** The loop over the required fields: it names a field only when the
    test [field in data] answered [False] for it. *)
Lemma check_required_outcome data :
  match check_required required_fields data with
  | Missing f => f ∈ required_fields /\ Py.contains f data = Some false
  | _ => forall f, f ∈ required_fields -> Py.contains f data <> Some false
  end.
Proof.
  assert (forall f, f ∈ required_fields ->
            f = "job_type" \/ f = "priority" \/ f = "payload") as Hfields.
  { intros f Hf. unfold required_fields in Hf.
    repeat (apply elem_of_cons in Hf as [-> | Hf]; [by auto |]).
    by apply not_elem_of_nil in Hf. }
  unfold required_fields at 1. cbn [check_required].
  destruct (Py.contains "job_type" data) as [[|] |] eqn:H1.
  - destruct (contains_defined _ "priority" _ _ H1) as [b2 H2].
    destruct (contains_defined _ "payload" _ _ H1) as [b3 H3].
    rewrite H2, H3. destruct b2.
    + destruct b3.
      * intros f Hf. destruct (Hfields f Hf) as [-> | [-> | ->]]; congruence.
      * split; [| exact H3]. unfold required_fields. set_solver.
    + split; [| exact H2]. unfold required_fields. set_solver.
  - split; [| exact H1]. unfold required_fields. set_solver.
  - intros f _. by destruct data.
Qed.

(** A number and a string in which the three names occur are bodies
    without any field; [submit_job] answers them with the 500 of its
    catch-all handler, not with 400.  Nothing is written. *)
Lemma non_object_body_answered_500 :
  invalid_body (JNum 5) /\
  submit_job Samples.env_succeeding "job-x" (JNum 5) empty_world
    = (internal_error, empty_world) /\
  invalid_body (JStr "job_type, priority, payload") /\
  submit_job Samples.env_succeeding "job-x" (JStr "job_type, priority, payload")
    empty_world = (internal_error, empty_world) /\
  status_code internal_error = 500%Z.
Proof.
  split; [left; exists "job_type"; split; [unfold required_fields; set_solver | reflexivity] |].
  split; [reflexivity |].
  split; [left; exists "job_type"; split; [unfold required_fields; set_solver | reflexivity] |].
  split; reflexivity.
Qed.

(** C10, as amended: a submit-job request whose body lacks one of
    job_type, priority, payload, or whose priority is neither high nor low,
    or whose job_type is not a registered kind, is never accepted and
    changes nothing, neither the store nor the broker.  It is answered with
    400 when the body is an object, and whenever it is empty or one of the
    handler's tests [field in data] fails; the other bodies that are no
    objects (a number, [true], a list or a string in which the three names
    occur) make the handler raise and are answered with the 500 of its
    catch-all. *)
Theorem invalid_submission_rejected env new_id data w :
  invalid_body data ->
  exists resp,
    submit_job env new_id data w = (resp, w) /\
    submitted resp = None /\
    (status_code resp = 400%Z \/ resp = internal_error) /\
    (resp = internal_error <->
     (forall fields, data <> JObj fields) /\
     Py.truthy data = true /\
     forall f, f ∈ required_fields -> Py.contains f data <> Some false) /\
    (forall fields, data = JObj fields -> status_code resp = 400%Z).
Proof.
  intros Hbad.
  assert ((exists fields, data = JObj fields) \/ (forall fields, data <> JObj fields))
    as [[fields ->] | Hobj].
  { destruct data; [right; discriminate .. | left; by eexists]. }
  - destruct (reported_invalid_rejected env new_id (JObj fields) w
                (object_invalid_reported fields Hbad)) as (resp & Hcall & Hcode & Hsub).
    exists resp. split; [exact Hcall |]. split; [exact Hsub |].
    split; [by left |]. split; [| by intros _ _].
    split.
    + intros ->. discriminate.
    + intros (Hno & _). by destruct (Hno fields).
  - assert (Py.getitem data "priority" = None) as Hget.
    { destruct data; try reflexivity. by destruct (Hobj fields). }
    unfold submit_job. destruct (Py.truthy data) eqn:Ht; cbn [negb].
    + pose proof (check_required_outcome data) as Hc.
      destruct (check_required required_fields data) as [| f |].
      * rewrite Hget. eexists. split; [reflexivity |]. split; [reflexivity |].
        split; [by right |]. split; [by split | intros fields ->; by destruct (Hobj fields)].
      * destruct Hc as [Hf Hmiss].
        eexists. split; [reflexivity |]. split; [reflexivity |].
        split; [by left |]. split; [| by intros _ _].
        split; [discriminate |]. intros (_ & _ & Hall). by destruct (Hall f Hf).
      * eexists. split; [reflexivity |]. split; [reflexivity |].
        split; [by right |]. split; [by split | intros fields ->; by destruct (Hobj fields)].
    + eexists. split; [reflexivity |]. split; [reflexivity |].
      split; [by left |]. split; [| by intros _ _].
      split; [discriminate | by intros (_ & [=] & _)].
Qed.

Lemma invalid_submission_rejected_witness :
  exists resp,
    submit_job Samples.env_failing "job-x"
      (JObj [("job_type", JStr "send_email"); ("priority", JStr "urgent");
             ("payload", JObj [])]) empty_world = (resp, empty_world) /\
    status_code resp = 400%Z /\
    submitted resp = None.
Proof.
  destruct (invalid_submission_rejected Samples.env_failing "job-x"
              (JObj [("job_type", JStr "send_email"); ("priority", JStr "urgent");
                     ("payload", JObj [])]) empty_world)
    as (resp & Hcall & Hsub & _ & _ & Hobj).
  - right. left. exists (JStr "urgent"). split; [reflexivity |].
    intros [H | H]; discriminate.
  - exists resp. split; [exact Hcall |]. split; [by eapply Hobj | exact Hsub].
Defined.

End Submission.

(** ** One turn of the worker loop *)

Module Engine.
Import Models Worker WorkerFacts.

(** Store and broker agree: an id is queued exactly when its stored
    record is pending. *)
Definition agree (w : World) : Prop :=
  forall jid, is_Some (queue w !! jid) <->
              exists j, db w !! jid = Some j /\ status j = "pending".

(** What holds of every world the API and the worker produce. *)
Record Inv (w : World) : Prop := mkInv {
  inv_agree : agree w;
  inv_key : forall jid j, db w !! jid = Some j -> job_id j = jid;
  inv_priority : forall jid j, db w !! jid = Some j ->
                               is_Some (Config.PRIORITY_SCORES !! priority j);
  inv_count : forall jid j, db w !! jid = Some j -> (0 <= retry_count j)%Z;
  inv_score : forall jid s j, queue w !! jid = Some s -> db w !! jid = Some j ->
                              Config.PRIORITY_SCORES !! priority j = Some s
}.

(** How a dispatched job [j] leaves the turn as [jf], and what the broker
    holds afterwards; [ran] is the outcome of [execute_job]. *)
Inductive finish (j jf : Job) (q q' : gmap string Z) : bool -> Prop :=
| finish_completed :
    status jf = "completed" ->
    retry_count jf = retry_count j ->
    q' = delete (job_id j) q ->
    finish j jf q q' true
| finish_retry sc :
    status jf = "pending" ->
    retry_count jf = (retry_count j + 1)%Z ->
    (retry_count jf < Config.MAX_RETRIES)%Z ->
    error_message jf = Some "Job execution failed" ->
    Config.PRIORITY_SCORES !! priority j = Some sc ->
    q' = <[job_id j := sc]> (delete (job_id j) q) ->
    finish j jf q q' false
| finish_final :
    status jf = "failed" ->
    retry_count jf = (retry_count j + 1)%Z ->
    (Config.MAX_RETRIES <= retry_count jf)%Z ->
    error_message jf = Some "Job execution failed" ->
    q' = delete (job_id j) q ->
    finish j jf q q' false.

(** Failed execution attempts of a job recorded in a trace. *)
Definition failed_run (jid : string) (e : Event) : bool :=
  match e with
  | EvExecute j false => String.eqb (job_id j) jid
  | _ => false
  end.

Definition failed_runs (jid : string) (evs : list Event) : nat :=
  length (List.filter (failed_run jid) evs).

(** Failed attempts of job [k] in a turn that ran job [jid]. *)
Definition runs_added (ran : bool) (jid k : string) : nat :=
  if ran then 0 else if String.eqb jid k then 1 else 0.

Lemma failed_runs_app jid l l' :
  failed_runs jid (l ++ l') = failed_runs jid l + failed_runs jid l'.
Proof. unfold failed_runs. by rewrite List.filter_app, List.length_app. Qed.

(** One turn of the loop, seen from the store and the broker. *)
Inductive turn (env : Env) (w w' : World) : Prop :=
| turn_idle :
    queue w = ∅ -> db w' = db w -> queue w' = queue w ->
    (forall k, failed_runs k (trace w') = failed_runs k (trace w)) ->
    turn env w w'
| turn_job s j jf picked at_run ran :
    queue w !! job_id j = Some s ->
    (forall m s', queue w !! m = Some s' -> (s <= s')%Z) ->
    db w !! job_id j = Some j ->
    status j = "pending" ->
    picked = mark_picked (clock w) j ->
    (execute_job env picked at_run).1 = ran ->
    db w' = <[job_id j := jf]> (db w) ->
    job_id jf = job_id j -> job_type jf = job_type j ->
    priority jf = priority j -> payload jf = payload j ->
    finish j jf (queue w) (queue w') ran ->
    (forall k, failed_runs k (trace w') =
               failed_runs k (trace w) + runs_added ran (job_id j) k) ->
    turn env w w'.

Lemma execute_job_world env job w :
  (execute_job env job w).2 = log (EvExecute job (execute_job env job w).1) (tick w).
Proof. reflexivity. Qed.

Lemma get_next_job_empty env w :
  queue w = ∅ -> get_next_job env w = (None, log (EvZpopmin None) w).
Proof.
  intros Hq. unfold get_next_job.
  destruct (Broker.zpopmin w) as [r w1] eqn:Hpop.
  pose proof (BrokerFacts.zpopmin_none _ _ _ Hpop) as [_ Hnone].
  rewrite (Hnone Hq) in *. unfold Broker.zpopmin in Hpop.
  destruct (Broker.min_entry (map_to_list (queue w))) as [[m s] |]; [discriminate |].
  by injection Hpop as <-.
Qed.

(** The dispatcher on a pending head entry. *)
Lemma get_next_job_pending env w jid s w1 j :
  Broker.zpopmin w = (Some (jid, s), w1) ->
  db w !! jid = Some j ->
  status j = "pending" ->
  get_next_job env w =
    (Some (mark_picked (clock w) j),
     (Database.update_job_status env (mark_picked (clock w) j) w1).2).
Proof.
  intros Hpop Hj Hst. unfold get_next_job. rewrite Hpop.
  apply BrokerFacts.zpopmin_some in Hpop as (_ & -> & _).
  unfold Database.get_job. autorewrite with world. rewrite Hj, Hst. reflexivity.
Qed.

Section Reliable.
Variable env : Env.
Hypothesis Hstore : reliable_store env.

(** [process_job] on a dispatched job whose priority is in the table. *)
Lemma process_job_finish job w sc q :
  (0 <= retry_count job)%Z ->
  Config.PRIORITY_SCORES !! priority job = Some sc ->
  queue w = delete (job_id job) q ->
  exists jf w',
    process_job env job w = (Py.Ok, jf, w') /\
    db w' = <[job_id job := jf]> (db w) /\
    job_id jf = job_id job /\ job_type jf = job_type job /\
    priority jf = priority job /\ payload jf = payload job /\
    finish job jf q (queue w') (execute_job env job w).1 /\
    forall k, failed_runs k (trace w') =
              failed_runs k (trace w) +
              runs_added (execute_job env job w).1 (job_id job) k.
Proof.
  intros H0 Hsc Hq. unfold process_job.
  destruct (execute_job env job w) as [ran w1] eqn:Hrun.
  assert (w1 = log (EvExecute job ran) (tick w)) as ->.
  { pose proof (execute_job_world env job w) as H. by rewrite Hrun in H. }
  cbn [fst]. destruct ran.
  - destruct (Database.update_job_status env _ _) as [ok w2] eqn:Hsave.
    assert (w2 = (Database.update_job_status env
                    (mark_completed (clock (log (EvExecute job true) (tick w))) job)
                    (log (EvExecute job true) (tick w))).2) as -> by (by rewrite Hsave).
    eexists _, _. split; [reflexivity |].
    unfold Database.update_job_status. autorewrite with world. rewrite Hstore.
    repeat (split; [reflexivity |]). split.
    { apply finish_completed; try reflexivity. exact Hq. }
    intros k. rewrite !failed_runs_app. unfold failed_runs, runs_added. simpl. lia.
  - destruct (Z_lt_ge_dec (retry_count job + 1) Config.MAX_RETRIES) as [Hlt | Hge].
    + destruct (handle_job_failure_retry env job "Job execution failed"
                  (log (EvExecute job false) (tick w)) sc H0 Hlt Hsc)
        as (d & _ & ->).
      eexists _, _. split; [reflexivity |].
      unfold Database.update_job_status, decided_retry.
      autorewrite with world. rewrite Hstore.
      repeat (split; [reflexivity |]). split.
      { eapply finish_retry; try reflexivity; [exact Hlt | exact Hsc |].
        by rewrite Hq. }
      intros k. rewrite !failed_runs_app. unfold failed_runs, runs_added. simpl.
      destruct (String.eqb (job_id job) k); simpl; lia.
    + apply Z.ge_le in Hge.
      rewrite (handle_job_failure_final env job "Job execution failed" _ Hge).
      eexists _, _. split; [reflexivity |].
      unfold Database.update_job_status, decided_final.
      autorewrite with world. rewrite Hstore.
      repeat (split; [reflexivity |]). split.
      { apply finish_final; try reflexivity; [simpl; lia |]. exact Hq. }
      intros k. rewrite !failed_runs_app. unfold failed_runs, runs_added. simpl.
      destruct (String.eqb (job_id job) k); simpl; lia.
Qed.

Lemma finish_picked t j jf q q' ran :
  finish (mark_picked t j) jf q q' ran -> finish j jf q q' ran.
Proof.
  intros H. destruct H.
  - by apply finish_completed.
  - by eapply finish_retry.
  - by apply finish_final.
Qed.

(** Every turn taken in a world satisfying the invariant ends normally
    and is a [turn]. *)
Lemma worker_iteration_turn w :
  Inv w -> exists w', worker_iteration env w = (Py.Ok, w') /\ turn env w w'.
Proof.
  intros HI. unfold worker_iteration.
  destruct (Broker.zpopmin w) as [[[jid s] |] w1] eqn:Hpop.
  - pose proof (BrokerFacts.zpopmin_some _ _ _ _ Hpop) as (Hq & Hw1 & Hmin).
    destruct (proj1 (inv_agree _ HI jid) (mk_is_Some _ _ Hq)) as (j & Hj & Hst).
    pose proof (inv_key _ HI _ _ Hj) as Hkey. subst jid.
    rewrite (get_next_job_pending env w _ s w1 j Hpop Hj Hst).
    destruct (inv_priority _ HI _ _ Hj) as [sc Hsc].
    destruct (process_job_finish (mark_picked (clock w) j)
                (Database.update_job_status env (mark_picked (clock w) j) w1).2
                sc (queue w))
      as (jf & w' & Hproc & Hdb & Hid & Hty & Hpr & Hpl & Hfin & Hruns).
    { simpl. by eapply inv_count. }
    { exact Hsc. }
    { unfold Database.update_job_status. rewrite Hw1.
      by autorewrite with world. }
    rewrite Hproc. exists w'. split; [reflexivity |].
    eapply turn_job with (j := j) (jf := jf); eauto.
    + rewrite Hdb. unfold Database.update_job_status. rewrite Hw1.
      autorewrite with world. rewrite Hstore. simpl.
      by rewrite insert_insert_eq.
    + by eapply finish_picked.
    + intros k. rewrite Hruns. unfold Database.update_job_status. rewrite Hw1.
      autorewrite with world. rewrite !failed_runs_app.
      unfold failed_runs. simpl. lia.
  - pose proof (BrokerFacts.zpopmin_none _ _ _ Hpop) as [Hnone _].
    specialize (Hnone eq_refl).
    rewrite (get_next_job_empty env w Hnone).
    eexists. split; [reflexivity |]. apply turn_idle; try done.
    intros k. autorewrite with world. rewrite !failed_runs_app.
    unfold failed_runs. simpl. lia.
Qed.

End Reliable.

(** Storing a pending record together with its broker entry keeps the
    invariant. *)
Lemma inv_put_pending w w' jid jf sc :
  Inv w ->
  db w' = <[jid := jf]> (db w) ->
  queue w' = <[jid := sc]> (queue w) ->
  job_id jf = jid -> status jf = "pending" ->
  Config.PRIORITY_SCORES !! priority jf = Some sc ->
  (0 <= retry_count jf)%Z ->
  Inv w'.
Proof.
  intros [Hag Hkey Hpr Hcnt Hsc] Hdb Hq Hid Hst Hscore H0.
  split.
  - intros k. rewrite Hdb, Hq.
    destruct (decide (jid = k)) as [-> | Hne].
    + rewrite !lookup_insert_eq. split; [by eauto | by eauto].
    + rewrite !lookup_insert_ne by done. apply Hag.
  - intros k x. rewrite Hdb.
    destruct (decide (jid = k)) as [-> | Hne].
    + rewrite lookup_insert_eq. by intros [= <-].
    + rewrite lookup_insert_ne by done. apply Hkey.
  - intros k x. rewrite Hdb.
    destruct (decide (jid = k)) as [-> | Hne].
    + rewrite lookup_insert_eq. intros [= <-]. by eauto.
    + rewrite lookup_insert_ne by done. apply Hpr.
  - intros k x. rewrite Hdb.
    destruct (decide (jid = k)) as [-> | Hne].
    + rewrite lookup_insert_eq. by intros [= <-].
    + rewrite lookup_insert_ne by done. apply Hcnt.
  - intros k s x. rewrite Hdb, Hq.
    destruct (decide (jid = k)) as [-> | Hne].
    + rewrite !lookup_insert_eq. by intros [= <-] [= <-].
    + rewrite !lookup_insert_ne by done. apply Hsc.
Qed.

(** Storing a record that is not pending, with its broker entry gone,
    keeps the invariant. *)
Lemma inv_put_settled w w' jid jf :
  Inv w ->
  db w' = <[jid := jf]> (db w) ->
  queue w' = delete jid (queue w) ->
  job_id jf = jid -> status jf <> "pending" ->
  is_Some (Config.PRIORITY_SCORES !! priority jf) ->
  (0 <= retry_count jf)%Z ->
  Inv w'.
Proof.
  intros [Hag Hkey Hpr Hcnt Hsc] Hdb Hq Hid Hst Hscore H0.
  split.
  - intros k. rewrite Hdb, Hq.
    destruct (decide (jid = k)) as [-> | Hne].
    + rewrite lookup_insert_eq, lookup_delete_eq. split.
      * by intros [? [=]].
      * intros (x & [= <-] & Hx). done.
    + rewrite lookup_insert_ne, lookup_delete_ne by done. apply Hag.
  - intros k x. rewrite Hdb.
    destruct (decide (jid = k)) as [-> | Hne].
    + rewrite lookup_insert_eq. by intros [= <-].
    + rewrite lookup_insert_ne by done. apply Hkey.
  - intros k x. rewrite Hdb.
    destruct (decide (jid = k)) as [-> | Hne].
    + rewrite lookup_insert_eq. by intros [= <-].
    + rewrite lookup_insert_ne by done. apply Hpr.
  - intros k x. rewrite Hdb.
    destruct (decide (jid = k)) as [-> | Hne].
    + rewrite lookup_insert_eq. by intros [= <-].
    + rewrite lookup_insert_ne by done. apply Hcnt.
  - intros k s x. rewrite Hdb, Hq.
    destruct (decide (jid = k)) as [-> | Hne].
    + rewrite lookup_delete_eq. discriminate.
    + rewrite lookup_insert_ne, lookup_delete_ne by done. apply Hsc.
Qed.

Lemma inv_same w w' : Inv w -> db w' = db w -> queue w' = queue w -> Inv w'.
Proof.
  intros [Hag Hkey Hpr Hcnt Hsc] Hdb Hq. unfold agree in Hag.
  split; unfold agree; rewrite ?Hdb, ?Hq; assumption.
Qed.

Lemma inv_empty : Inv empty_world.
Proof.
  assert (db empty_world = ∅) as Hdb by reflexivity.
  assert (queue empty_world = ∅) as Hq by reflexivity.
  split; unfold agree; rewrite ?Hdb, ?Hq.
  - intros k. rewrite !lookup_empty. split.
    + by intros [? [=]].
    + by intros (? & [=] & _).
  - intros k x. by rewrite lookup_empty.
  - intros k x. by rewrite lookup_empty.
  - intros k x. by rewrite lookup_empty.
  - intros k s x. by rewrite lookup_empty.
Qed.

(** A turn keeps the invariant. *)
Lemma turn_inv env w w' : Inv w -> turn env w w' -> Inv w'.
Proof.
  intros HI [Hq Hdb Hq' _
            | s j jf picked at_run ran Hqj Hmin Hj Hst _ _ Hdb Hid Hty Hpr Hpl Hfin _].
  - by eapply inv_same.
  - pose proof (inv_priority _ HI _ _ Hj) as Hscore.
    pose proof (inv_count _ HI _ _ Hj) as H0.
    destruct Hfin as [Hs Hrc Hq' | sc Hs Hrc Hlt _ Hsc Hq' | Hs Hrc Hge _ Hq'].
    + eapply inv_put_settled; eauto.
      * by rewrite Hs.
      * by rewrite Hpr.
      * by rewrite Hrc.
    + eapply inv_put_pending with (sc := sc); eauto.
      * by rewrite Hq', insert_delete_eq.
      * by rewrite Hpr.
      * rewrite Hrc. lia.
    + eapply inv_put_settled; eauto.
      * by rewrite Hs.
      * by rewrite Hpr.
      * rewrite Hrc. lia.
Qed.

(** What a submission does to the store and the broker. *)
Lemma submit_job_effect env new_id data w resp w' :
  App.submit_job env new_id data w = (resp, w') ->
  (db w' = db w /\ queue w' = queue w /\ status_code resp <> 201%Z) \/
  (exists job sc,
     status_code resp = 201%Z /\ submitted resp = Some job /\
     job_id job = new_id /\ status job = "pending" /\ retry_count job = 0%Z /\
     Config.PRIORITY_SCORES !! priority job = Some sc /\
     db w' = <[new_id := job]> (db w) /\
     queue w' = <[new_id := sc]> (queue w)).
Proof.
  unfold App.submit_job. intros H.
  repeat match type of H with
         | (if ?c then _ else _) = _ => destruct c eqn:?
         | match ?c with _ => _ end = _ => destruct c eqn:?
         | (_, _) = (_, _) => apply pair_equal_spec in H as [<- <-]
         end;
    try (left; repeat split; [simpl; discriminate]);
    match goal with
    | Hs : Database.save_job _ ?j _ = (?b, ?w1) |- _ =>
        pose proof (DatabaseFacts.save_job_db env j w) as Hdb;
        pose proof (DatabaseFacts.save_job_queue env j w) as Hq;
        pose proof (DatabaseFacts.save_job_result env j w) as Hres;
        rewrite Hs in Hdb, Hq, Hres; simpl in Hdb, Hq, Hres; subst b
    end.
  - left. destruct (store_ok env (clock w)); [discriminate |].
    repeat split; [assumption | assumption | simpl; discriminate].
  - right. destruct (store_ok env (clock w)); [| discriminate].
    eexists _, _. repeat (split; [reflexivity |]).
    split; [eassumption |]. autorewrite with world. by rewrite Hdb, Hq.
  - left. destruct (store_ok env (clock w)); [| discriminate].
    exfalso.
    match goal with
    | Hp : App.one_of App.valid_priorities _ = Some _ |- _ =>
        apply Submission.one_of_priorities_scored in Hp as [sc Hsc]
    end.
    simpl in *. congruence.
Qed.

Lemma submit_job_inv env new_id data w resp w' :
  Inv w -> App.submit_job env new_id data w = (resp, w') -> Inv w'.
Proof.
  intros HI Hsub.
  destruct (submit_job_effect _ _ _ _ _ _ Hsub)
    as [(Hdb & Hq & _) | (job & sc & _ & _ & Hid & Hst & Hrc & Hsc & Hdb & Hq)].
  - by eapply inv_same.
  - eapply inv_put_pending; eauto. rewrite Hrc. lia.
Qed.

(** The worlds between complete calls: the empty world, and what a
    submission or a turn of the worker loop makes of such a world. *)
Inductive quiescent (env : Env) : World -> Prop :=
| quiescent_start : quiescent env empty_world
| quiescent_submit w new_id data resp w' :
    quiescent env w ->
    App.submit_job env new_id data w = (resp, w') ->
    quiescent env w'
| quiescent_turn w r w' :
    quiescent env w ->
    worker_iteration env w = (r, w') ->
    quiescent env w'.

Lemma quiescent_inv env w : reliable_store env -> quiescent env w -> Inv w.
Proof.
  intros Hstore Hq. induction Hq as [| w new_id data resp w' _ IH Hsub | w r w' _ IH Hturn].
  - apply inv_empty.
  - by eapply submit_job_inv.
  - destruct (worker_iteration_turn env Hstore w IH) as (w2 & Heq & Ht).
    rewrite Heq in Hturn. injection Hturn as _ <-. by eapply turn_inv.
Qed.


(** *** The loop makes progress *)

(** Attempts a queued job may still cost, plus the turn that settles it. *)
Definition weight (d : gmap string Job) (jid : string) : nat :=
  match d !! jid with
  | Some j => S (Z.to_nat (Config.MAX_RETRIES - retry_count j))
  | None => 1
  end.

Definition pending_work (w : World) : nat :=
  sum_list_with (fun e => weight (db w) e.1) (map_to_list (queue w)).

Lemma sum_list_with_ext_in {A} (f g : A -> nat) (l : list A) :
  (forall x, x ∈ l -> f x = g x) -> sum_list_with f l = sum_list_with g l.
Proof.
  induction l as [| a l IH]; intros H; [reflexivity |]. simpl.
  rewrite (H a) by apply list_elem_of_here.
  rewrite IH; [reflexivity |]. intros x Hx. apply H. by apply list_elem_of_further.
Qed.

Lemma work_split (d : gmap string Job) (q : gmap string Z) jid s :
  q !! jid = Some s ->
  sum_list_with (fun e => weight d e.1) (map_to_list q) =
    weight d jid + sum_list_with (fun e => weight d e.1) (map_to_list (delete jid q)).
Proof. intros H. by rewrite <- (map_to_list_delete q jid s H). Qed.

Lemma work_rest (d : gmap string Job) (q : gmap string Z) jid jf :
  sum_list_with (fun e => weight (<[jid := jf]> d) e.1) (map_to_list (delete jid q)) =
  sum_list_with (fun e => weight d e.1) (map_to_list (delete jid q)).
Proof.
  apply sum_list_with_ext_in. intros [k x] Hin.
  apply elem_of_map_to_list in Hin. simpl. unfold weight.
  rewrite lookup_insert_ne; [reflexivity |].
  intros <-. rewrite lookup_delete_eq in Hin. discriminate.
Qed.

(** A turn that finds the broker non-empty lowers the pending work. *)
Lemma turn_work env w w' :
  turn env w w' -> queue w <> ∅ -> pending_work w' < pending_work w.
Proof.
  intros [Hq | s j jf picked at_run ran Hqj _ Hj _ _ _ Hdb _ _ _ _ Hfin _] Hne; [done |].
  unfold pending_work. rewrite (work_split (db w) (queue w) _ s Hqj), Hdb.
  destruct Hfin as [_ _ -> | sc _ Hrc Hlt _ _ -> | _ _ _ _ ->].
  - rewrite work_rest. unfold weight. rewrite Hj. lia.
  - rewrite (work_split _ _ (job_id j) sc) by apply lookup_insert_eq.
    rewrite delete_insert_eq, delete_delete_eq, work_rest.
    unfold weight. rewrite lookup_insert_eq, Hj, Hrc.
    unfold Config.MAX_RETRIES in *. lia.
  - rewrite work_rest. unfold weight. rewrite Hj. lia.
Qed.

Lemma start_app env a b w :
  start env (a + b) w =
    match start env a w with
    | (Py.Ok, w1) => start env b w1
    | (Py.Raise e, w1) => (Py.Raise e, w1)
    end.
Proof.
  revert w. induction a as [| a IH]; intros w; simpl; [reflexivity |].
  destruct (worker_iteration env w) as [[| e] w1]; [apply IH | reflexivity].
Qed.

(** *** A job whose every execution fails *)

Section Doomed.
Variable env : Env.
Hypothesis Hstore : reliable_store env.

(** The record of the job when we start watching it, and the failed
    attempts the trace already holds for its id. *)
Variable target : Job.
Variable base : nat.

Hypothesis Hfails :
  forall j w, job_id j = job_id target -> job_type j = job_type target ->
              payload j = payload target -> (execute_job env j w).1 = false.

Definition attempts_so_far (w : World) (j : Job) : Prop :=
  Z.of_nat (failed_runs (job_id target) (trace w)) =
    (Z.of_nat base + (retry_count j - retry_count target))%Z.

Definition on_track (w : World) : Prop :=
  exists j, db w !! job_id target = Some j /\
            job_type j = job_type target /\ payload j = payload target /\
            attempts_so_far w j /\
            ((status j = "pending" /\ (retry_count j < Config.MAX_RETRIES)%Z) \/
             (status j = "failed" /\ retry_count j = Config.MAX_RETRIES /\
              error_message j = Some "Job execution failed")).

Definition settled (w : World) : Prop :=
  exists j, db w !! job_id target = Some j /\
            status j = "failed" /\ retry_count j = Config.MAX_RETRIES /\
            error_message j = Some "Job execution failed" /\
            queue w !! job_id target = None /\
            attempts_so_far w j.

Lemma turn_on_track w w' : turn env w w' -> on_track w -> on_track w'.
Proof.
  intros [Hq Hdb Hq' Hruns
         | s j0 jf picked at_run ran Hq0 _ Hj0 Hst0 Hpicked Hran Hdb Hid Hty Hpr Hpl Hfin Hruns]
         (j & Hj & Hjt & Hjp & Hatt & Hcase).
  - exists j. unfold attempts_so_far. rewrite Hdb, Hruns. by eauto 10.
  - destruct (decide (job_id j0 = job_id target)) as [Heq | Hne].
    + rewrite Heq in *. assert (j0 = j) as -> by congruence.
      assert (ran = false) as ->.
      { rewrite <- Hran. apply Hfails; subst picked; simpl; congruence. }
      exists jf. rewrite Hdb, lookup_insert_eq.
      split; [reflexivity |]. split; [congruence |]. split; [congruence |].
      assert (attempts_so_far w' jf) as Hatt'.
      { unfold attempts_so_far in *. rewrite Hruns. unfold runs_added.
        rewrite String.eqb_refl.
        assert (retry_count jf = retry_count j + 1)%Z as -> by (inversion Hfin; done).
        lia. }
      split; [exact Hatt' |].
      destruct Hcase as [[_ Hlt] | [Hfailed _]]; [| congruence].
      inversion Hfin as [| sc Hs Hrc Hlt' _ _ _ | Hs Hrc Hge Hmsg _].
      * left. by split.
      * right. split; [exact Hs |]. split; [lia | exact Hmsg].
    + exists j. rewrite Hdb, lookup_insert_ne by done.
      unfold attempts_so_far in *. rewrite Hruns. unfold runs_added.
      apply String.eqb_neq in Hne. rewrite Hne.
      repeat (split; [first [assumption | reflexivity] |]).
      split; [destruct ran; lia | exact Hcase].
Qed.

Lemma turn_settled w w' : turn env w w' -> settled w -> settled w'.
Proof.
  intros [Hq Hdb Hq' Hruns
         | s j0 jf picked at_run ran Hq0 _ Hj0 Hst0 _ _ Hdb _ _ _ _ Hfin Hruns]
         (j & Hj & Hst & Hrc & Hmsg & Hqt & Hatt).
  - exists j. unfold attempts_so_far. rewrite Hdb, Hq', Hruns. by eauto 10.
  - assert (job_id j0 <> job_id target) as Hne by congruence.
    exists j. rewrite Hdb, lookup_insert_ne by done.
    repeat (split; [assumption |]). split.
    + inversion Hfin as [_ _ -> | sc _ _ _ _ _ -> | _ _ _ _ ->];
        rewrite ?lookup_insert_ne, ?lookup_delete_ne by done; exact Hqt.
    + unfold attempts_so_far in *. rewrite Hruns. unfold runs_added.
      apply String.eqb_neq in Hne. rewrite Hne. destruct ran; lia.
Qed.

Lemma on_track_failed_settled w :
  Inv w -> on_track w ->
  (exists j, db w !! job_id target = Some j /\ status j = "failed") ->
  settled w.
Proof.
  intros HI (j & Hj & _ & _ & Hatt & Hcase) (j' & Hj' & Hfailed).
  assert (j' = j) as -> by congruence.
  destruct Hcase as [[Hp _] | (_ & Hrc & Hmsg)]; [congruence |].
  exists j. repeat (split; [assumption |]). split; [| exact Hatt].
  destruct (queue w !! job_id target) as [s |] eqn:Hq; [| reflexivity].
  destruct (proj1 (inv_agree _ HI _) (mk_is_Some _ _ Hq)) as (j2 & Hj2 & Hp).
  congruence.
Qed.

(** Once settled, the job stays settled however long the loop runs. *)
Lemma start_settled n w :
  Inv w -> settled w ->
  exists w', start env n w = (Py.Ok, w') /\ Inv w' /\ settled w'.
Proof.
  revert w. induction n as [| n IH]; intros w HI Hs; [by exists w |].
  destruct (worker_iteration_turn env Hstore w HI) as (w1 & Heq & Ht).
  simpl. rewrite Heq. apply IH.
  - by eapply turn_inv.
  - by eapply turn_settled.
Qed.

(** The loop settles the job within as many turns as there is pending
    work. *)
Lemma start_settles n w :
  pending_work w <= n -> Inv w -> on_track w ->
  exists k w', k <= n /\ start env k w = (Py.Ok, w') /\ Inv w' /\ settled w'.
Proof.
  revert w. induction n as [| n IH]; intros w Hwork HI Htrack.
  - destruct Htrack as (j & Hj & Hjt & Hjp & Hatt & [[Hp Hlt] | (Hf & Hrc & Hmsg)]).
    + exfalso.
      destruct (proj2 (inv_agree _ HI (job_id target))) as [s Hq]; [by eauto |].
      destruct (worker_iteration_turn env Hstore w HI) as (w1 & _ & Hturn).
      assert (queue w <> ∅) as Hne. { intros He. by rewrite He, lookup_empty in Hq. }
      pose proof (turn_work env w w1 Hturn Hne). lia.
    + exists 0, w. split; [lia |]. split; [reflexivity |]. split; [exact HI |].
      apply on_track_failed_settled; [exact HI | | by eauto].
      exists j. by eauto 10.
  - destruct Htrack as (j & Hj & Hjt & Hjp & Hatt & [[Hp Hlt] | (Hf & Hrc & Hmsg)]).
    + destruct (proj2 (inv_agree _ HI (job_id target))) as [s Hq]; [by eauto |].
      destruct (worker_iteration_turn env Hstore w HI) as (w1 & Heq & Hturn).
      assert (queue w <> ∅) as Hne. { intros He. by rewrite He, lookup_empty in Hq. }
      pose proof (turn_work env w w1 Hturn Hne) as Hless.
      destruct (IH w1) as (k & w' & Hk & Hrun & HI' & Hs).
      * lia.
      * by eapply turn_inv.
      * eapply turn_on_track; [exact Hturn |]. exists j. by eauto 10.
      * exists (S k), w'. split; [lia |]. split; [| by split].
        simpl. by rewrite Heq.
    + exists 0, w. split; [lia |]. split; [reflexivity |]. split; [exact HI |].
      apply on_track_failed_settled; [exact HI | | by eauto].
      exists j. by eauto 10.
Qed.

Lemma doomed_job_fails w :
  Inv w -> on_track w ->
  exists n, forall m, n <= m ->
    exists w', start env m w = (Py.Ok, w') /\ Inv w' /\ settled w'.
Proof.
  intros HI Htrack.
  destruct (start_settles (pending_work w) w) as (k & w1 & _ & Hrun & HI1 & Hs1);
    [lia | exact HI | exact Htrack |].
  exists k. intros m Hm. replace m with (k + (m - k)) by lia.
  rewrite start_app, Hrun. by apply start_settled.
Qed.

End Doomed.




End Engine.

(** ** Runs on concrete worlds *)

Module Runs.
Import Models Worker Engine.

Definition world_submitted : World :=
  (App.submit_job Samples.env_failing "job-a" Samples.submit_body empty_world).2.

Definition world_after_turn : World :=
  (worker_iteration Samples.env_failing world_submitted).2.

Lemma env_failing_reliable : reliable_store Samples.env_failing.
Proof. intros t. reflexivity. Qed.


Lemma world_submitted_quiescent : quiescent Samples.env_failing world_submitted.
Proof.
  eapply quiescent_submit; [apply quiescent_start |]. apply surjective_pairing.
Qed.

Lemma world_after_turn_quiescent : quiescent Samples.env_failing world_after_turn.
Proof.
  eapply quiescent_turn; [apply world_submitted_quiescent |]. apply surjective_pairing.
Qed.



End Runs.

(** ** Priority order of dispatch *)

Module Priority.
Import Models Worker Engine.

Lemma high_sorts_before_low :
  exists high_score low_score,
    Config.PRIORITY_SCORES !! "high" = Some high_score /\
    Config.PRIORITY_SCORES !! "low" = Some low_score /\
    (high_score < low_score)%Z.
Proof. exists 1%Z, 2%Z. repeat split. Qed.

(** C5: the table gives high a strictly smaller score than low, the pop
    removes an entry of least score, and in every world whose broker holds
    exactly a pending high-priority job and a pending low-priority job the
    dispatcher hands out the high one first and the low one next. *)
Theorem high_before_low env w a b score_a score_b :
  job_id a <> job_id b ->
  priority a = "high" -> priority b = "low" ->
  status a = "pending" -> status b = "pending" ->
  db w !! job_id a = Some a -> db w !! job_id b = Some b ->
  Config.PRIORITY_SCORES !! priority a = Some score_a ->
  Config.PRIORITY_SCORES !! priority b = Some score_b ->
  queue w = <[job_id a := score_a]> (<[job_id b := score_b]> ∅) ->
  (score_a < score_b)%Z /\
  (forall w0 member score w1,
     Broker.zpopmin w0 = (Some (member, score), w1) ->
     forall m s, queue w0 !! m = Some s -> (score <= s)%Z) /\
  exists first w1 second w2,
    get_next_job env w = (Some first, w1) /\ job_id first = job_id a /\
    get_next_job env w1 = (Some second, w2) /\ job_id second = job_id b /\
    queue w2 = ∅.
Proof.
  intros Hne Hpa Hpb Hsa Hsb Ha Hb Hsca Hscb Hq.
  rewrite Hpa in Hsca. rewrite Hpb in Hscb.
  assert (score_a = 1%Z) as -> by (vm_compute in Hsca; congruence).
  assert (score_b = 2%Z) as -> by (vm_compute in Hscb; congruence).
  split; [lia |]. split.
  { intros w0 member score w1 Hpop. by apply BrokerFacts.zpopmin_some in Hpop as (_ & _ & Hmin). }
  assert (queue w !! job_id a = Some 1%Z) as Hqa by (rewrite Hq; apply lookup_insert_eq).
  assert (queue w !! job_id b = Some 2%Z) as Hqb.
  { rewrite Hq, lookup_insert_ne by done. apply lookup_insert_eq. }
  destruct (BrokerFacts.zpopmin_nonempty w _ _ Hqa) as (m & s & w1 & Hpop).
  pose proof (BrokerFacts.zpopmin_some _ _ _ _ Hpop) as (Hm & Hw1 & Hmin).
  assert (m = job_id a) as ->.
  { destruct (decide (m = job_id a)) as [| Hma]; [done |].
    rewrite Hq, lookup_insert_ne in Hm by done.
    destruct (decide (m = job_id b)) as [-> | Hmb].
    - rewrite lookup_insert_eq in Hm. injection Hm as <-.
      specialize (Hmin _ _ Hqa). lia.
    - rewrite lookup_insert_ne, lookup_empty in Hm by done. discriminate. }
  rewrite (get_next_job_pending env w _ s w1 a Hpop Ha Hsa).
  set (w2 := (Database.update_job_status env (mark_picked (clock w) a) w1).2).
  assert (queue w2 = <[job_id b := 2%Z]> ∅) as Hq2.
  { unfold w2, Database.update_job_status. rewrite Hw1. autorewrite with world.
    rewrite Hq, delete_insert_eq. apply delete_id.
    rewrite lookup_insert_ne by done. apply lookup_empty. }
  assert (db w2 !! job_id b = Some b) as Hb2.
  { unfold w2, Database.update_job_status. rewrite Hw1. autorewrite with world.
    destruct (store_ok env (clock w)); [| exact Hb].
    simpl. by rewrite lookup_insert_ne. }
  assert (queue w2 !! job_id b = Some 2%Z) as Hqb2 by (rewrite Hq2; apply lookup_insert_eq).
  destruct (BrokerFacts.zpopmin_nonempty w2 _ _ Hqb2) as (m2 & s2 & w3 & Hpop2).
  pose proof (BrokerFacts.zpopmin_some _ _ _ _ Hpop2) as (Hm2 & Hw3 & _).
  assert (m2 = job_id b) as ->.
  { destruct (decide (m2 = job_id b)) as [| Hmb]; [done |].
    rewrite Hq2, lookup_insert_ne, lookup_empty in Hm2 by done. discriminate. }
  exists (mark_picked (clock w) a), w2, (mark_picked (clock w2) b),
    (Database.update_job_status env (mark_picked (clock w2) b) w3).2.
  split; [reflexivity |]. split; [reflexivity |].
  split; [exact (get_next_job_pending env w2 _ s2 w3 b Hpop2 Hb2 Hsb) |].
  split; [reflexivity |].
  unfold Database.update_job_status. rewrite Hw3. autorewrite with world.
  rewrite Hq2, delete_insert_eq. apply delete_empty.
Qed.

(** job-b (low) is submitted first, job-a (high) second; the dispatcher
    still hands out job-a first. *)
Lemma high_before_low_witness :
  exists first w1 second w2,
    get_next_job Samples.env_failing
      (App.submit_job Samples.env_failing "job-a" Samples.submit_body
         (App.submit_job Samples.env_failing "job-b"
            (JObj [("job_type", JStr "process_data"); ("priority", JStr "low");
                   ("payload", JObj [])]) empty_world).2).2 = (Some first, w1) /\
    job_id first = "job-a" /\
    get_next_job Samples.env_failing w1 = (Some second, w2) /\
    job_id second = "job-b" /\
    queue w2 = ∅.
Proof.
  refine (proj2 (proj2
    (high_before_low Samples.env_failing _
       (new_job "job-a" "send_email" "high" Samples.email_payload 1)
       (new_job "job-b" "process_data" "low" (JObj []) 0) 1%Z 2%Z
       _ _ _ _ _ _ _ _ _ _))).
  - discriminate.
  - reflexivity.
  - reflexivity.
  - reflexivity.
  - reflexivity.
  - vm_compute. reflexivity.
  - vm_compute. reflexivity.
  - reflexivity.
  - reflexivity.
  - reflexivity.
Defined.

End Priority.

(** ** A job of an unregistered kind *)

Module UnknownKind.
Import Models Worker WorkerFacts Engine.











End UnknownKind.

(** ** A store write that fails *)

Module StoreFaults.
Import Models Worker Engine.

(** The store refuses the write issued at time [t]; handlers fail. *)
Definition env_store_down (t : nat) : Env :=
  {| store_ok := fun n => negb (Nat.eqb n t); handler_ok := fun _ _ => false |}.

(** With an empty broker the loop only polls. *)
Lemma idle_forever env n w :
  queue w = ∅ ->
  exists w', start env n w = (Py.Ok, w') /\ db w' = db w /\ queue w' = ∅.
Proof.
  revert w. induction n as [| n IH]; intros w Hq; [by exists w |].
  simpl. unfold worker_iteration. rewrite (get_next_job_empty env w Hq).
  destruct (IH (sleep 2 (log (EvZpopmin None) w)) Hq) as (w' & Hrun & Hdb & Hq').
  exists w'. by repeat split.
Qed.

(** C9 on the code: job-a is submitted, dispatched and fails its first
    run; the write of the retry record is refused.  The turn ends normally,
    the store still shows the job as processing with no attempt, and the
    job is back in the broker.  The next turn pops it, finds it not
    pending and drops it: the job is never run again, and no caller was
    told.  The API, on a refused write, answers 500. *)
Theorem refused_write_is_swallowed :
  let env := env_store_down 3 in
  let w0 := (App.submit_job env "job-a" Samples.submit_body empty_world).2 in
  let turn1 := worker_iteration env w0 in
  let turn2 := worker_iteration env turn1.2 in
  turn1.1 = Py.Ok /\
  (exists picked j,
     FailureHandling.new_events w0 turn1.2 =
       [EvZpopmin (Some ("job-a", 1%Z)); EvSave picked true; EvExecute picked false;
        EvShouldRetry "job-a" true; EvShouldRetry "job-a" true;
        EvSave j false; EvSleep 1; EvZadd "job-a" 1] /\
     status j = "pending" /\ retry_count j = 1%Z) /\
  (exists j, db turn1.2 !! "job-a" = Some j /\
             status j = "processing" /\ retry_count j = 0%Z /\
             error_message j = None) /\
  queue turn1.2 !! "job-a" = Some 1%Z /\
  turn2.1 = Py.Ok /\
  queue turn2.2 = ∅ /\
  (forall n, exists w' j,
     start env n turn2.2 = (Py.Ok, w') /\
     db w' !! "job-a" = Some j /\
     status j = "processing" /\ retry_count j = 0%Z /\
     queue w' = ∅) /\
  status_code (App.submit_job (env_store_down 0) "job-a" Samples.submit_body
                 empty_world).1 = 500%Z.
Proof.
  cbv zeta.
  split; [vm_compute; reflexivity |].
  split.
  { eexists _, _. split; [vm_compute; reflexivity |]. by split. }
  split.
  { eexists. split; [vm_compute; reflexivity |]. by repeat split. }
  split; [vm_compute; reflexivity |].
  split; [vm_compute; reflexivity |].
  assert (queue (worker_iteration (env_store_down 3)
                   (worker_iteration (env_store_down 3)
                      (App.submit_job (env_store_down 3) "job-a" Samples.submit_body
                         empty_world).2).2).2 = ∅) as Hempty
    by (vm_compute; reflexivity).
  split; [exact Hempty |].
  split; [| vm_compute; reflexivity].
  intros n.
  destruct (idle_forever (env_store_down 3) n _ Hempty) as (w' & Hrun & Hdb & Hq).
  exists w'. eexists. split; [exact Hrun |]. rewrite Hdb.
  split; [vm_compute; reflexivity |]. by repeat split.
Qed.

End StoreFaults.

(** * Further properties of the code *)

From stdpp Require Import sorting.

(** ** What a dispatch does, in any world *)

Module Dispatch.
Import Models Worker Engine.

Lemma get_next_job_some env w job w' :
  get_next_job env w = (Some job, w') ->
  exists jid score stored,
    queue w !! jid = Some score /\
    (forall m s, queue w !! m = Some s -> (score <= s)%Z) /\
    db w !! jid = Some stored /\
    status stored = "pending" /\
    job = mark_picked (clock w) stored /\
    w' = (Database.update_job_status env (mark_picked (clock w) stored)
            (log (EvZpopmin (Some (jid, score)))
               (with_queue (delete jid (queue w)) w))).2.
Proof.
  unfold get_next_job.
  destruct (Broker.zpopmin w) as [[[jid s] |] w1] eqn:Hpop; [| discriminate].
  pose proof (BrokerFacts.zpopmin_some _ _ _ _ Hpop) as (Hq & Hw1 & Hmin).
  unfold Database.get_job. rewrite Hw1. autorewrite with world.
  destruct (db w !! jid) as [stored |] eqn:Hdb; [| discriminate].
  destruct (String.eqb_spec (status stored) "pending") as [Hst | _]; [| discriminate].
  destruct (Database.update_job_status env _ _) as [ok w2] eqn:Hsave.
  intros H. apply pair_equal_spec in H as [Hjob <-]. injection Hjob as <-.
  exists jid, s, stored. repeat (split; [first [assumption | reflexivity] |]).
  by rewrite Hsave.
Qed.

(** X1: whatever the store and the broker hold, a job handed out by
    [get_next_job] was stored as pending under the popped id, that id had a
    least score in the broker, the job comes back marked processing with its
    pick time set, and the broker has lost exactly that entry. *)
Theorem dispatched_job_was_pending env w job w' :
  get_next_job env w = (Some job, w') ->
  exists jid score stored,
    queue w !! jid = Some score /\
    (forall m s, queue w !! m = Some s -> (score <= s)%Z) /\
    db w !! jid = Some stored /\
    status stored = "pending" /\
    job = mark_picked (clock w) stored /\
    status job = "processing" /\
    picked_at job = Some (clock w) /\
    retry_count job = retry_count stored /\
    queue w' = delete jid (queue w).
Proof.
  intros Hcall.
  destruct (get_next_job_some env w job w' Hcall)
    as (jid & score & stored & Hq & Hmin & Hdb & Hst & -> & ->).
  exists jid, score, stored.
  split; [exact Hq |]. split; [exact Hmin |]. split; [exact Hdb |].
  split; [exact Hst |]. split; [reflexivity |]. split; [reflexivity |].
  split; [reflexivity |]. split; [reflexivity |].
  unfold Database.update_job_status. by autorewrite with world.
Qed.

Lemma dispatched_job_was_pending_witness :
  exists jid score stored,
    queue Runs.world_submitted !! jid = Some score /\
    db Runs.world_submitted !! jid = Some stored /\
    status stored = "pending".
Proof.
  destruct (dispatched_job_was_pending Samples.env_failing Runs.world_submitted _ _
              (surjective_pairing _))
    as (jid & score & stored & Hq & _ & Hdb & Hst & _).
  exists jid, score, stored. split; [exact Hq |]. split; [exact Hdb | exact Hst].
Defined.

(** X2: a call of [get_next_job] takes at most one entry out of the broker:
    none when the broker is empty, else exactly the popped one.  When the
    call hands out nothing it has not written to the store, and the popped
    entry, if any, referred to no record (it is dropped all the same) or to
    a record that is not pending. *)
Theorem dispatch_takes_one_entry env w r w' :
  get_next_job env w = (r, w') ->
  (queue w = ∅ /\ r = None /\ queue w' = ∅ /\ db w' = db w) \/
  (exists jid score,
     queue w !! jid = Some score /\
     queue w' = delete jid (queue w) /\
     Broker.zcard w = S (Broker.zcard w') /\
     (r = None ->
      db w' = db w /\
      (db w !! jid = None \/
       exists stored, db w !! jid = Some stored /\ status stored <> "pending"))).
Proof.
  intros Hcall.
  destruct (Broker.zpopmin w) as [[[jid s] |] w1] eqn:Hpop.
  - right. pose proof (BrokerFacts.zpopmin_some _ _ _ _ Hpop) as (Hq & Hw1 & _).
    exists jid, s. split; [exact Hq |].
    assert (queue w' = delete jid (queue w)) as Hq'.
    { unfold get_next_job in Hcall. rewrite Hpop in Hcall.
      destruct (Database.get_job jid w1) as [stored |].
      - destruct (String.eqb (status stored) "pending").
        + destruct (Database.update_job_status env _ w1) as [ok w2] eqn:Hsave.
          apply pair_equal_spec in Hcall as [_ <-].
          assert (w2 = (Database.update_job_status env
                          (mark_picked (clock w1) stored) w1).2) as ->
            by (by rewrite Hsave).
          unfold Database.update_job_status. rewrite Hw1. by autorewrite with world.
        + apply pair_equal_spec in Hcall as [_ <-]. by rewrite Hw1.
      - apply pair_equal_spec in Hcall as [_ <-]. by rewrite Hw1. }
    split; [exact Hq' |]. split.
    { unfold Broker.zcard. rewrite Hq'.
      transitivity (size (<[jid := s]> (delete jid (queue w)))).
      - f_equal. symmetry. by apply insert_delete_id.
      - apply map_size_insert_None, lookup_delete_eq. }
    intros ->. unfold get_next_job in Hcall. rewrite Hpop in Hcall.
    unfold Database.get_job in Hcall. rewrite Hw1 in Hcall.
    autorewrite with world in Hcall.
    destruct (db w !! jid) as [stored |] eqn:Hdb.
    + destruct (String.eqb_spec (status stored) "pending") as [Hst | Hst].
      * destruct (Database.update_job_status env _ _). discriminate.
      * apply pair_equal_spec in Hcall as [_ <-]. split; [reflexivity |].
        right. by exists stored.
    + apply pair_equal_spec in Hcall as [_ <-]. split; [reflexivity |]. by left.
  - left. pose proof (BrokerFacts.zpopmin_none _ _ _ Hpop) as [Hnone _].
    specialize (Hnone eq_refl). rewrite (get_next_job_empty env w Hnone) in Hcall.
    apply pair_equal_spec in Hcall as [<- <-]. by repeat split.
Qed.

Lemma dispatch_takes_one_entry_witness :
  (queue Samples.world_stale = ∅) \/
  exists jid score,
    queue Samples.world_stale !! jid = Some score /\
    Broker.zcard Samples.world_stale =
      S (Broker.zcard (get_next_job Samples.env_failing Samples.world_stale).2).
Proof.
  destruct (dispatch_takes_one_entry Samples.env_failing Samples.world_stale _ _
              (surjective_pairing _))
    as [(Hq & _) | (jid & score & Hq & _ & Hcard & _)].
  - left. exact Hq.
  - right. exists jid, score. split; [exact Hq | exact Hcard].
Defined.

(** X3: at a quiescent point the dispatcher never prefers a lower class:
    the job it hands out has a score no greater than that of any pending
    job in the store, so a low-priority job is handed out only when no
    high-priority job is pending. *)
Theorem no_priority_inversion env w job w' :
  reliable_store env ->
  quiescent env w ->
  get_next_job env w = (Some job, w') ->
  forall other,
    db w !! job_id other = Some other ->
    status other = "pending" ->
    (exists s s', Config.PRIORITY_SCORES !! priority job = Some s /\
                  Config.PRIORITY_SCORES !! priority other = Some s' /\
                  (s <= s')%Z) /\
    (priority job = "low" -> priority other <> "high").
Proof.
  intros Hstore Hq Hcall other Hother Hpend.
  pose proof (quiescent_inv env w Hstore Hq) as HI.
  destruct (get_next_job_some env w job w' Hcall)
    as (jid & score & stored & Hqj & Hmin & Hdb & _ & -> & _).
  destruct (proj2 (inv_agree _ HI (job_id other))) as [s' Hqo]; [by eauto |].
  pose proof (inv_score _ HI _ _ _ Hqj Hdb) as Hs.
  pose proof (inv_score _ HI _ _ _ Hqo Hother) as Hs'.
  pose proof (Hmin _ _ Hqo) as Hle.
  split; [by exists score, s' |].
  change (priority (mark_picked (clock w) stored)) with (priority stored).
  intros Hlow Hhigh. rewrite Hlow in Hs. rewrite Hhigh in Hs'.
  assert (Config.PRIORITY_SCORES !! "low" = Some 2%Z) as Hl by reflexivity.
  assert (Config.PRIORITY_SCORES !! "high" = Some 1%Z) as Hh by reflexivity.
  assert (score = 2%Z) by congruence. assert (s' = 1%Z) by congruence. lia.
Qed.

Definition low_body : json :=
  JObj [("job_type", JStr "process_data"); ("priority", JStr "low");
        ("payload", JObj [])].

(** job-b (low) submitted first, job-a (high) second. *)
Definition world_two : World :=
  (App.submit_job Samples.env_failing "job-a" Samples.submit_body
     (App.submit_job Samples.env_failing "job-b" low_body empty_world).2).2.

Lemma no_priority_inversion_witness :
  exists job w' s s',
    get_next_job Samples.env_failing world_two = (Some job, w') /\
    Config.PRIORITY_SCORES !! priority job = Some s /\
    Config.PRIORITY_SCORES !! "low" = Some s' /\
    (s <= s')%Z.
Proof.
  destruct (get_next_job Samples.env_failing world_two) as [[job |] w'] eqn:Hcall;
    [| vm_compute in Hcall; discriminate].
  exists job, w'.
  destruct (no_priority_inversion Samples.env_failing world_two job w'
              Runs.env_failing_reliable) with
    (other := new_job "job-b" "process_data" "low" (JObj []) 0)
    as [(s & s' & Hs & Hs' & Hle) _].
  - eapply quiescent_submit; [| apply surjective_pairing].
    eapply quiescent_submit; [apply quiescent_start | apply surjective_pairing].
  - exact Hcall.
  - vm_compute. reflexivity.
  - reflexivity.
  - exists s, s'. split; [reflexivity |]. split; [exact Hs |]. split; [exact Hs' | exact Hle].
Defined.

End Dispatch.

(** ** The record a turn leaves behind *)

Module Lifecycle.
Import Models Worker WorkerFacts Engine.

(** The record [process_job] ends with, from the outcome of the run, the
    time after the run and the job as dispatched. *)
Definition outcome_record (ran : bool) (now : nat) (job : Job) : Job :=
  if ran then mark_completed now job
  else if (retry_count job + 1 <? Config.MAX_RETRIES)%Z
       then set_status "pending" (mark_failed "Job execution failed" now job)
       else mark_failed "Job execution failed" now job.

Definition outcome_queue (ran : bool) (job : Job) (sc : Z) (q : gmap string Z)
  : gmap string Z :=
  if ran then q
  else if (retry_count job + 1 <? Config.MAX_RETRIES)%Z
       then <[job_id job := sc]> q
       else q.

Lemma clock_sleep d w : clock (sleep d w) = clock w + Z.to_nat d.
Proof. reflexivity. Qed.

Lemma clock_zadd m s w : clock (Broker.zadd m s w) = clock w.
Proof. reflexivity. Qed.

Section Reliable.
Variable env : Env.
Hypothesis Hstore : reliable_store env.

Lemma process_job_exact job w sc :
  (0 <= retry_count job)%Z ->
  Config.PRIORITY_SCORES !! priority job = Some sc ->
  exists w',
    process_job env job w =
      (Py.Ok, outcome_record (execute_job env job w).1 (S (clock w)) job, w') /\
    db w' = <[job_id job :=
                outcome_record (execute_job env job w).1 (S (clock w)) job]> (db w) /\
    queue w' = outcome_queue (execute_job env job w).1 job sc (queue w) /\
    S (clock w) <= clock w'.
Proof.
  intros H0 Hsc. unfold process_job, outcome_record, outcome_queue.
  destruct (execute_job env job w) as [ran w1] eqn:Hrun.
  assert (w1 = log (EvExecute job ran) (tick w)) as ->.
  { pose proof (execute_job_world env job w) as H. by rewrite Hrun in H. }
  cbn [fst]. destruct ran.
  - destruct (Database.update_job_status env _ _) as [ok w2] eqn:Hsave.
    assert (w2 = (Database.update_job_status env
                    (mark_completed (clock (log (EvExecute job true) (tick w))) job)
                    (log (EvExecute job true) (tick w))).2) as -> by (by rewrite Hsave).
    eexists. split; [reflexivity |].
    unfold Database.update_job_status. autorewrite with world. rewrite Hstore.
    split; [reflexivity |]. split; [reflexivity | lia].
  - destruct (Z.ltb_spec (retry_count job + 1) Config.MAX_RETRIES) as [Hlt | Hge].
    + destruct (handle_job_failure_retry env job "Job execution failed"
                  (log (EvExecute job false) (tick w)) sc H0 Hlt Hsc)
        as (d & _ & ->).
      eexists. split; [reflexivity |].
      rewrite clock_zadd, clock_sleep.
      unfold Database.update_job_status, decided_retry.
      autorewrite with world. rewrite Hstore.
      split; [reflexivity |]. split; [reflexivity | lia].
    + rewrite (handle_job_failure_final env job "Job execution failed" _ Hge).
      eexists. split; [reflexivity |].
      unfold Database.update_job_status, decided_final.
      autorewrite with world. rewrite Hstore.
      split; [reflexivity |]. split; [reflexivity | lia].
Qed.

(** A turn either finds the broker empty, or settles one pending job. *)
Lemma worker_iteration_exact w :
  Inv w ->
  exists w',
    worker_iteration env w = (Py.Ok, w') /\
    ((queue w = ∅ /\ db w' = db w /\ queue w' = queue w /\ clock w <= clock w') \/
     exists j sc ran,
       is_Some (queue w !! job_id j) /\
       db w !! job_id j = Some j /\
       status j = "pending" /\
       Config.PRIORITY_SCORES !! priority j = Some sc /\
       db w' = <[job_id j :=
                   outcome_record ran (S (S (clock w))) (mark_picked (clock w) j)]> (db w) /\
       queue w' = outcome_queue ran j sc (delete (job_id j) (queue w)) /\
       S (S (clock w)) <= clock w').
Proof.
  intros HI. unfold worker_iteration.
  destruct (Broker.zpopmin w) as [[[jid s] |] w1] eqn:Hpop.
  - pose proof (BrokerFacts.zpopmin_some _ _ _ _ Hpop) as (Hq & Hw1 & Hmin).
    destruct (proj1 (inv_agree _ HI jid) (mk_is_Some _ _ Hq)) as (j & Hj & Hst).
    pose proof (inv_key _ HI _ _ Hj) as Hkey. subst jid.
    rewrite (get_next_job_pending env w _ s w1 j Hpop Hj Hst).
    destruct (inv_priority _ HI _ _ Hj) as [sc Hsc].
    destruct (process_job_exact (mark_picked (clock w) j)
                (Database.update_job_status env (mark_picked (clock w) j) w1).2 sc)
      as (w' & Hproc & Hdb & Hq' & Hclock).
    { simpl. by eapply inv_count. }
    { exact Hsc. }
    rewrite Hproc. exists w'. split; [reflexivity |]. right.
    exists j, sc,
      (execute_job env (mark_picked (clock w) j)
         (Database.update_job_status env (mark_picked (clock w) j) w1).2).1.
    split; [by eexists |]. split; [exact Hj |]. split; [exact Hst |].
    split; [exact Hsc |]. split.
    + rewrite Hdb. unfold Database.update_job_status. rewrite Hw1.
      autorewrite with world. rewrite Hstore.
      change (job_id (mark_picked (clock w) j)) with (job_id j).
      by rewrite insert_insert_eq.
    + split.
      * rewrite Hq'. unfold Database.update_job_status. rewrite Hw1.
        by autorewrite with world.
      * unfold Database.update_job_status in Hclock. rewrite Hw1 in Hclock.
        autorewrite with world in Hclock. exact Hclock.
  - pose proof (BrokerFacts.zpopmin_none _ _ _ Hpop) as [Hnone _].
    specialize (Hnone eq_refl).
    rewrite (get_next_job_empty env w Hnone).
    eexists. split; [reflexivity |]. left.
    split; [exact Hnone |]. split; [reflexivity |]. split; [reflexivity |].
    rewrite clock_sleep. autorewrite with world. lia.
Qed.

End Reliable.

End Lifecycle.

(** ** Accepted submissions *)

Module Accept.
Import Models App Engine.

(** A body [submit_job] accepts: an object holding a registered job_type,
    a priority of the table, and some payload. *)
Definition valid_body (data : json) (jt pr : string) (pl : json) : Prop :=
  Py.getitem data "job_type" = Some (JStr jt) /\ In jt valid_job_types /\
  Py.getitem data "priority" = Some (JStr pr) /\ In pr valid_priorities /\
  Py.getitem data "payload" = Some pl.

Lemma one_of_in names s : In s names -> one_of names (JStr s) = Some s.
Proof.
  intros Hin. unfold one_of.
  assert (existsb (String.eqb s) names = true) as ->; [| reflexivity].
  apply existsb_exists. exists s. split; [exact Hin | apply String.eqb_refl].
Qed.

Lemma one_of_some names v s : one_of names v = Some s -> v = JStr s /\ In s names.
Proof.
  destruct v; simpl; try discriminate.
  destruct (existsb (String.eqb s0) names) eqn:Hex; [| discriminate].
  intros [= <-]. split; [reflexivity |].
  apply existsb_exists in Hex as (x & Hx & Heq). apply String.eqb_eq in Heq. by subst.
Qed.

Lemma getitem_truthy data key v : Py.getitem data key = Some v -> Py.truthy data = true.
Proof. destruct data; simpl; try discriminate. by destruct fields. Qed.

Lemma valid_priority_scored pr :
  In pr valid_priorities -> exists sc, Config.PRIORITY_SCORES !! pr = Some sc.
Proof.
  intros [<- | [<- | []]]; [by exists 1%Z | by exists 2%Z].
Qed.

(** What [submit_job] does on a valid body. *)
Lemma submit_job_valid env new_id data w jt pr pl :
  valid_body data jt pr pl ->
  exists sc,
    Config.PRIORITY_SCORES !! pr = Some sc /\
    submit_job env new_id data w =
      if store_ok env (clock w) then
        ({| status_code := 201; message := "Job submitted successfully";
            submitted := Some (new_job new_id jt pr pl (clock w)) |},
         Broker.zadd new_id sc
           (Database.save_job env (new_job new_id jt pr pl (clock w)) w).2)
      else
        (error 500 "Failed to save job to database",
         (Database.save_job env (new_job new_id jt pr pl (clock w)) w).2).
Proof.
  intros (Hjt & Hjt_in & Hpr & Hpr_in & Hpl).
  destruct (valid_priority_scored pr Hpr_in) as [sc Hsc]. exists sc.
  split; [exact Hsc |]. unfold submit_job.
  rewrite (getitem_truthy _ _ _ Hjt). cbn [negb].
  unfold required_fields, check_required.
  rewrite (Submission.getitem_contains _ _ _ Hjt),
    (Submission.getitem_contains _ _ _ Hpr), (Submission.getitem_contains _ _ _ Hpl).
  rewrite Hpr, (one_of_in _ _ Hpr_in), Hjt, (one_of_in _ _ Hjt_in), Hpl.
  unfold Database.save_job at 1. cbv zeta.
  destruct (store_ok env (clock w)) eqn:Hok; cbn [negb].
  - change (priority (new_job new_id jt pr pl (clock w))) with pr. rewrite Hsc.
    unfold Database.save_job. rewrite Hok. reflexivity.
  - unfold Database.save_job. rewrite Hok. reflexivity.
Qed.

(** Only a valid body whose record the store took is answered with 201. *)
Lemma submit_job_created env new_id data w resp w' :
  submit_job env new_id data w = (resp, w') ->
  status_code resp = 201%Z ->
  exists jt pr pl, valid_body data jt pr pl /\ store_ok env (clock w) = true.
Proof.
  unfold submit_job. intros H Hcode.
  repeat match type of H with
         | (if ?c then _ else _) = _ => destruct c eqn:?
         | match ?c with _ => _ end = _ => destruct c eqn:?
         | (_, _) = (_, _) => apply pair_equal_spec in H as [<- <-]
         end; try discriminate.
  repeat match goal with
         | Hone : one_of _ _ = Some _ |- _ => apply one_of_some in Hone as [-> ?]
         end.
  match goal with
  | Hs : Database.save_job _ ?j _ = (?b, _), Hb : negb ?b = false |- _ =>
      pose proof (DatabaseFacts.save_job_result env j w) as Hres;
      rewrite Hs in Hres; simpl in Hres; destruct b; [| discriminate]
  end.
  eexists _, _, _. split; [| by symmetry]. by repeat split.
Qed.

(** X4: [submit_job] answers 201 exactly when the body is valid and the
    store takes the record.  It then stores a pending record with no
    attempt under the new id, queues that id with the score of its priority
    class, and leaves every other record and broker entry alone; with any
    other answer the store and the broker hold what they held. *)
Theorem submission_accepted_iff env new_id data w resp w' :
  submit_job env new_id data w = (resp, w') ->
  (status_code resp = 201%Z <->
   (exists jt pr pl, valid_body data jt pr pl) /\ store_ok env (clock w) = true) /\
  (status_code resp = 201%Z ->
   exists jt pr pl sc,
     valid_body data jt pr pl /\
     submitted resp = Some (new_job new_id jt pr pl (clock w)) /\
     Config.PRIORITY_SCORES !! pr = Some sc /\
     db w' = <[new_id := new_job new_id jt pr pl (clock w)]> (db w) /\
     queue w' = <[new_id := sc]> (queue w)) /\
  (status_code resp <> 201%Z -> db w' = db w /\ queue w' = queue w).
Proof.
  intros Hsub. split; [split |]; [| | split].
  - intros Hcode.
    destruct (submit_job_created _ _ _ _ _ _ Hsub Hcode) as (jt & pr & pl & Hv & Hok).
    split; [by exists jt, pr, pl | exact Hok].
  - intros [(jt & pr & pl & Hv) Hok].
    destruct (submit_job_valid env new_id data w jt pr pl Hv) as (sc & _ & Heq).
    rewrite Hok, Hsub in Heq. by apply pair_equal_spec in Heq as [-> _].
  - intros Hcode.
    destruct (submit_job_created _ _ _ _ _ _ Hsub Hcode) as (jt & pr & pl & Hv & Hok).
    destruct (submit_job_valid env new_id data w jt pr pl Hv) as (sc & Hsc & Heq).
    rewrite Hok, Hsub in Heq. apply pair_equal_spec in Heq as [-> ->].
    exists jt, pr, pl, sc. split; [exact Hv |]. split; [reflexivity |].
    split; [exact Hsc |]. autorewrite with world. rewrite Hok. by split.
  - intros Hcode.
    destruct (submit_job_effect _ _ _ _ _ _ Hsub)
      as [(Hdb & Hq & _) | (job & sc & H201 & _)]; [by split | contradiction].
Qed.

Lemma submission_accepted_iff_witness :
  status_code (submit_job Samples.env_failing "job-a" Samples.submit_body
                 empty_world).1 = 201%Z <->
  (exists jt pr pl, valid_body Samples.submit_body jt pr pl) /\
  store_ok Samples.env_failing (clock empty_world) = true.
Proof.
  exact (proj1 (submission_accepted_iff Samples.env_failing "job-a" Samples.submit_body
                  empty_world _ _ (surjective_pairing _))).
Defined.

End Accept.

(** ** Bodies that are not objects *)

Module Bodies.
Import App.

(** The answer to a body on which the field check raises or which names
    every field without being a dict. *)
Lemma check_required_cases data :
  (exists f, In f required_fields /\ Py.contains f data = Some false /\
             check_required required_fields data = Missing f) \/
  ((forall f, In f required_fields -> Py.contains f data <> Some false) /\
   (check_required required_fields data = CheckRaised \/
    check_required required_fields data = AllPresent)).
Proof.
  unfold required_fields. cbn [check_required].
  destruct (Py.contains "job_type" data) as [[|] |] eqn:H1;
    [| left; exists "job_type"; split; [by left | by split]
     | right; split; [| by left];
       intros f Hf; destruct Hf as [<- | [<- | [<- | []]]];
       try congruence; by destruct data].
  destruct (Py.contains "priority" data) as [[|] |] eqn:H2;
    [| left; exists "priority"; split; [right; by left | by split]
     | by destruct data].
  destruct (Py.contains "payload" data) as [[|] |] eqn:H3;
    [| left; exists "payload"; split; [right; right; by left | by split]
     | by destruct data].
  right. split; [| by right].
  intros f Hf. destruct Hf as [<- | [<- | [<- | []]]]; congruence.
Qed.

(** X5: a request body that is not a JSON object is never accepted and
    changes nothing, not even the clock: it is answered 400 when it is
    empty, zero or false or lacks one of the three names, and with the
    500 of the catch-all handler otherwise, that is for a number, for
    [true], and for a list or a string in which all three names occur. *)
Theorem non_object_body_rejected env new_id data w :
  (forall fields, data <> JObj fields) ->
  exists resp,
    submit_job env new_id data w = (resp, w) /\
    submitted resp = None /\
    (status_code resp = 400%Z \/ resp = internal_error) /\
    (resp = internal_error <->
     Py.truthy data = true /\
     forall f, In f required_fields -> Py.contains f data <> Some false).
Proof.
  intros Hobj. unfold submit_job.
  destruct (Py.truthy data) eqn:Ht; cbn [negb].
  - destruct (check_required_cases data)
      as [(f & Hf & Hc & ->) | [Hall [-> | ->]]].
    + eexists. split; [reflexivity |]. split; [reflexivity |].
      split; [by left |]. split; [discriminate |].
      intros [_ Hall]. by destruct (Hall f Hf).
    + eexists. split; [reflexivity |]. split; [reflexivity |].
      split; [by right |]. by split.
    + assert (Py.getitem data "priority" = None) as ->.
      { destruct data; try reflexivity. by destruct (Hobj fields). }
      eexists. split; [reflexivity |]. split; [reflexivity |].
      split; [by right |]. by split.
  - eexists. split; [reflexivity |]. split; [reflexivity |].
    split; [by left |]. split; [discriminate | by intros [[=] _]].
Qed.

Lemma non_object_body_rejected_witness :
  submit_job Samples.env_succeeding "job-x"
    (JArr [JStr "job_type"; JStr "priority"; JStr "payload"]) empty_world
  = (internal_error, empty_world).
Proof.
  destruct (non_object_body_rejected Samples.env_succeeding "job-x"
              (JArr [JStr "job_type"; JStr "priority"; JStr "payload"]) empty_world)
    as (resp & Hcall & _ & _ & Hiff); [discriminate |].
  rewrite Hcall. f_equal. apply Hiff. split; [reflexivity |].
  intros f [<- | [<- | [<- | []]]]; discriminate.
Defined.

End Bodies.

(** ** The records found at quiescent points *)

Module Records.
Import Models Worker Engine Lifecycle.

(** The shape of a record the API and the worker leave in the store. *)
Definition record_ok (j : Job) : Prop :=
  ((status j = "pending" /\ (0 <= retry_count j < Config.MAX_RETRIES)%Z) \/
   (status j = "completed" /\ (0 <= retry_count j < Config.MAX_RETRIES)%Z) \/
   (status j = "failed" /\ retry_count j = Config.MAX_RETRIES)) /\
  error_message j =
    (if (retry_count j =? 0)%Z then None else Some "Job execution failed") /\
  (picked_at j = None <-> status j = "pending" /\ retry_count j = 0%Z) /\
  (completed_at j = None <-> status j = "pending" /\ retry_count j = 0%Z) /\
  In (job_type j) App.valid_job_types /\
  In (priority j) App.valid_priorities.

Lemma new_job_ok new_id jt pr pl now :
  In jt App.valid_job_types -> In pr App.valid_priorities ->
  record_ok (new_job new_id jt pr pl now).
Proof.
  intros Hjt Hpr. unfold record_ok. simpl.
  split; [left; split; [reflexivity | unfold Config.MAX_RETRIES; lia] |].
  repeat split; auto.
Qed.

Lemma outcome_record_ok ran now t j :
  record_ok j -> status j = "pending" ->
  record_ok (outcome_record ran now (mark_picked t j)).
Proof.
  intros (Hshape & Hmsg & _ & _ & Hjt & Hpr) Hst.
  destruct Hshape as [[_ Hrc] | [[Hc _] | [Hf _]]]; [| congruence | congruence].
  unfold outcome_record. change (retry_count (mark_picked t j)) with (retry_count j).
  unfold Config.MAX_RETRIES in *.
  destruct ran; [| destruct (Z.ltb_spec (retry_count j + 1) 3) as [Hlt | Hge]];
    unfold record_ok; simpl; unfold Config.MAX_RETRIES.
  - split; [right; left; split; [reflexivity | exact Hrc] |].
    split; [exact Hmsg |].
    split; [split; [discriminate | intros [[=] _]] |].
    split; [split; [discriminate | intros [[=] _]] |]. by split.
  - split; [left; split; [reflexivity | lia] |].
    destruct (Z.eqb_spec (retry_count j + 1) 0) as [H0 | _]; [lia |].
    split; [reflexivity |].
    split; [split; [discriminate | intros [_ H]; lia] |].
    split; [split; [discriminate | intros [_ H]; lia] |]. by split.
  - split; [right; right; split; [reflexivity | lia] |].
    destruct (Z.eqb_spec (retry_count j + 1) 0) as [H0 | _]; [lia |].
    split; [reflexivity |].
    split; [split; [discriminate | intros [[=] _]] |].
    split; [split; [discriminate | intros [[=] _]] |]. by split.
Qed.

Section Reliable.
Variable env : Env.
Hypothesis Hstore : reliable_store env.

Lemma quiescent_records w :
  quiescent env w -> forall jid j, db w !! jid = Some j -> record_ok j.
Proof.
  intros Hq. induction Hq as [| w new_id data resp w' Hq IH Hsub | w r w' Hq IH Hturn];
    intros jid j Hj.
  - change (db empty_world) with (∅ : gmap string Job) in Hj.
    by rewrite lookup_empty in Hj.
  - destruct (submit_job_effect _ _ _ _ _ _ Hsub)
      as [(Hdb & _) | (job & sc & Hcode & _)].
    + rewrite Hdb in Hj. by eapply IH.
    + destruct (Accept.submit_job_created _ _ _ _ _ _ Hsub Hcode)
        as (jt & pr & pl & Hvalid & Hok).
      destruct (Accept.submit_job_valid env new_id data w jt pr pl Hvalid)
        as (sc' & _ & Heq).
      rewrite Hok, Hsub in Heq. apply pair_equal_spec in Heq as [_ ->].
      autorewrite with world in Hj. rewrite Hok in Hj.
      change (job_id (new_job new_id jt pr pl (clock w))) with new_id in Hj.
      destruct (decide (new_id = jid)) as [-> | Hne].
      * rewrite lookup_insert_eq in Hj. injection Hj as <-.
        destruct Hvalid as (_ & Hjt & _ & Hpr & _). by apply new_job_ok.
      * rewrite lookup_insert_ne in Hj by done. by eapply IH.
  - pose proof (quiescent_inv env w Hstore Hq) as HI.
    destruct (worker_iteration_exact env Hstore w HI) as (w2 & Heq & Hcases).
    rewrite Heq in Hturn. apply pair_equal_spec in Hturn as [_ <-].
    destruct Hcases as [(_ & Hdb & _) | (j0 & sc & ran & _ & Hj0 & Hst & _ & Hdb & _)].
    + rewrite Hdb in Hj. by eapply IH.
    + rewrite Hdb in Hj. destruct (decide (job_id j0 = jid)) as [<- | Hne].
      * rewrite lookup_insert_eq in Hj. injection Hj as <-.
        apply outcome_record_ok; [by eapply IH | exact Hst].
      * rewrite lookup_insert_ne in Hj by done. by eapply IH.
Qed.

End Reliable.

(** X6: with a store that takes every write, every record found in the
    store at a quiescent point is pending or completed with fewer attempts
    than the bound, or failed with exactly the bound (never processing); it
    carries the fixed error exactly when an attempt has failed, also when
    it completed later; and its pick and finish times are unset exactly
    while it is pending with no attempt. *)
Theorem stored_records_well_formed env w jid j :
  reliable_store env ->
  quiescent env w ->
  db w !! jid = Some j ->
  job_id j = jid /\ record_ok j.
Proof.
  intros Hstore Hq Hj. split.
  - exact (inv_key _ (quiescent_inv env w Hstore Hq) _ _ Hj).
  - by eapply quiescent_records.
Qed.

Lemma stored_records_well_formed_witness :
  exists j, db Runs.world_after_turn !! "job-a" = Some j /\ record_ok j.
Proof.
  eexists. split; [vm_compute; reflexivity |].
  exact (proj2 (stored_records_well_formed Samples.env_failing Runs.world_after_turn
                  "job-a" _ Runs.env_failing_reliable Runs.world_after_turn_quiescent
                  eq_refl)).
Defined.

End Records.

(** ** The times a record carries *)

Module Timeline.
Import Models Worker Engine Lifecycle.

(** The times of a record are in order up to [now]: a record that was never
    picked has no finish time; otherwise it was created, then picked, then
    finished, all by [now]. *)
Definition in_order (now : nat) (j : Job) : Prop :=
  created_at j <= now /\
  match picked_at j, completed_at j with
  | None, None => True
  | Some p, Some c => created_at j <= p /\ p <= c /\ c <= now
  | _, _ => False
  end.

Lemma in_order_later now now' j : in_order now j -> now <= now' -> in_order now' j.
Proof.
  unfold in_order. intros [Hc Ht] Hle. split; [lia |].
  destruct (picked_at j), (completed_at j); try exact Ht. lia.
Qed.

Lemma outcome_record_in_order ran t j :
  created_at j <= t ->
  in_order (S (S t)) (outcome_record ran (S (S t)) (mark_picked t j)).
Proof.
  intros Hc. unfold outcome_record, in_order.
  destruct ran; [| destruct (retry_count (mark_picked t j) + 1 <? Config.MAX_RETRIES)%Z];
    simpl; lia.
Qed.

Lemma submit_job_clock env new_id data w resp w' :
  App.submit_job env new_id data w = (resp, w') -> clock w <= clock w'.
Proof.
  unfold App.submit_job. intros H.
  repeat match type of H with
         | (if ?c then _ else _) = _ => destruct c eqn:?
         | match ?c with _ => _ end = _ => destruct c eqn:?
         | (_, _) = (_, _) => apply pair_equal_spec in H as [<- <-]
         end;
    try match goal with
        | Hs : Database.save_job _ ?j _ = (_, _) |- _ =>
            pose proof (DatabaseFacts.save_job_clock env j w) as Hc;
            rewrite Hs in Hc; cbn [snd] in Hc
        end;
    rewrite ?clock_zadd; lia.
Qed.

Section Reliable.
Variable env : Env.
Hypothesis Hstore : reliable_store env.

Lemma quiescent_in_order w :
  quiescent env w -> forall jid j, db w !! jid = Some j -> in_order (clock w) j.
Proof.
  intros Hq. induction Hq as [| w new_id data resp w' Hq IH Hsub | w r w' Hq IH Hturn];
    intros jid j Hj.
  - change (db empty_world) with (∅ : gmap string Job) in Hj.
    by rewrite lookup_empty in Hj.
  - pose proof (submit_job_clock _ _ _ _ _ _ Hsub) as Hle.
    destruct (submit_job_effect _ _ _ _ _ _ Hsub)
      as [(Hdb & _) | (job & sc & Hcode & _)].
    + rewrite Hdb in Hj. eapply in_order_later; [by eapply IH | exact Hle].
    + destruct (Accept.submit_job_created _ _ _ _ _ _ Hsub Hcode)
        as (jt & pr & pl & Hvalid & Hok).
      destruct (Accept.submit_job_valid env new_id data w jt pr pl Hvalid)
        as (sc' & _ & Heq).
      rewrite Hok, Hsub in Heq. apply pair_equal_spec in Heq as [_ Hw'].
      assert (db w' = <[new_id := new_job new_id jt pr pl (clock w)]> (db w)) as Hdb.
      { rewrite Hw'. autorewrite with world. by rewrite Hok. }
      rewrite Hdb in Hj. destruct (decide (new_id = jid)) as [-> | Hne].
      * rewrite lookup_insert_eq in Hj. injection Hj as <-.
        unfold in_order. simpl. lia.
      * rewrite lookup_insert_ne in Hj by done.
        eapply in_order_later; [by eapply IH | exact Hle].
  - pose proof (quiescent_inv env w Hstore Hq) as HI.
    destruct (worker_iteration_exact env Hstore w HI) as (w2 & Heq & Hcases).
    rewrite Heq in Hturn. apply pair_equal_spec in Hturn as [_ <-].
    destruct Hcases as [(_ & Hdb & _ & Hle)
                       | (j0 & sc & ran & _ & Hj0 & _ & _ & Hdb & _ & Hle)].
    + rewrite Hdb in Hj. eapply in_order_later; [by eapply IH | exact Hle].
    + rewrite Hdb in Hj. destruct (decide (job_id j0 = jid)) as [<- | Hne].
      * rewrite lookup_insert_eq in Hj. injection Hj as <-.
        eapply in_order_later; [| exact Hle].
        apply outcome_record_in_order. by destruct (IH _ _ Hj0).
      * rewrite lookup_insert_ne in Hj by done.
        eapply in_order_later; [by eapply IH | lia].
Qed.

End Reliable.

(** X7: with a store that takes every write and a clock that never goes
    back, the times of every record found at a quiescent point are in
    order: creation, then the latest pick, then the latest finish, none
    later than now; a record has a finish time exactly when it has a pick
    time, also while it waits for a retry. *)
Theorem timestamps_in_order env w jid j :
  reliable_store env ->
  quiescent env w ->
  db w !! jid = Some j ->
  created_at j <= clock w /\
  (picked_at j = None <-> completed_at j = None) /\
  (forall p c, picked_at j = Some p -> completed_at j = Some c ->
               created_at j <= p /\ p <= c /\ c <= clock w).
Proof.
  intros Hstore Hq Hj.
  destruct (quiescent_in_order env Hstore w Hq jid j Hj) as [Hc Ht].
  split; [exact Hc |].
  destruct (picked_at j) as [p |], (completed_at j) as [c |]; try contradiction.
  - split; [split; discriminate |]. intros p' c' [= <-] [= <-]. exact Ht.
  - split; [split; reflexivity |]. intros p' c' [=].
Qed.

Lemma timestamps_in_order_witness :
  exists j p c,
    db Runs.world_after_turn !! "job-a" = Some j /\
    picked_at j = Some p /\ completed_at j = Some c /\
    created_at j <= p /\ p <= c /\ c <= clock Runs.world_after_turn.
Proof.
  destruct (db Runs.world_after_turn !! "job-a") as [j |] eqn:Hj;
    [| vm_compute in Hj; discriminate].
  destruct (picked_at j) as [p |] eqn:Hp;
    [| vm_compute in Hj; injection Hj as <-; discriminate].
  destruct (completed_at j) as [c |] eqn:Hc;
    [| vm_compute in Hj; injection Hj as <-; discriminate].
  exists j, p, c. split; [reflexivity |]. split; [exact Hp |]. split; [exact Hc |].
  exact (proj2 (proj2 (timestamps_in_order Samples.env_failing Runs.world_after_turn
                         "job-a" j Runs.env_failing_reliable
                         Runs.world_after_turn_quiescent Hj)) p c Hp Hc).
Defined.

End Timeline.

(** ** The loop, left to itself *)

Module Progress.
Import Models Worker Engine Records.

(** Attempts a queued job can still fail before it is given up. *)
Definition attempts_left (d : gmap string Job) (jid : string) : nat :=
  match d !! jid with
  | Some j => Z.to_nat (Config.MAX_RETRIES - retry_count j)
  | None => 0
  end.

Definition turns_left (w : World) : nat :=
  sum_list_with (fun e => attempts_left (db w) e.1) (map_to_list (queue w)).

(** Pending records have attempts left. *)
Definition budgeted (w : World) : Prop :=
  forall jid j, db w !! jid = Some j -> status j = "pending" ->
                (0 <= retry_count j < Config.MAX_RETRIES)%Z.

Lemma turns_left_split (d : gmap string Job) (q : gmap string Z) jid s :
  q !! jid = Some s ->
  sum_list_with (fun e => attempts_left d e.1) (map_to_list q) =
    attempts_left d jid +
    sum_list_with (fun e => attempts_left d e.1) (map_to_list (delete jid q)).
Proof. intros H. by rewrite <- (map_to_list_delete q jid s H). Qed.

Lemma turns_left_rest (d : gmap string Job) (q : gmap string Z) jid jf :
  sum_list_with (fun e => attempts_left (<[jid := jf]> d) e.1)
    (map_to_list (delete jid q)) =
  sum_list_with (fun e => attempts_left d e.1) (map_to_list (delete jid q)).
Proof.
  apply sum_list_with_ext_in. intros [k x] Hin.
  apply elem_of_map_to_list in Hin. simpl. unfold attempts_left.
  rewrite lookup_insert_ne; [reflexivity |].
  intros <-. rewrite lookup_delete_eq in Hin. discriminate.
Qed.

Lemma turns_left_turn env w w' :
  budgeted w -> turn env w w' -> queue w <> ∅ -> turns_left w' < turns_left w.
Proof.
  intros Hb [Hq | s j jf picked at_run ran Hqj _ Hj Hst _ _ Hdb _ _ _ _ Hfin _] Hne;
    [done |].
  pose proof (Hb _ _ Hj Hst) as Hrc.
  unfold turns_left. rewrite (turns_left_split (db w) (queue w) _ s Hqj), Hdb.
  unfold Config.MAX_RETRIES in *.
  destruct Hfin as [_ _ -> | sc _ Hrc' Hlt _ _ -> | _ _ _ _ ->].
  - rewrite turns_left_rest. unfold attempts_left. rewrite Hj.
    unfold Config.MAX_RETRIES. lia.
  - rewrite (turns_left_split _ _ (job_id j) sc) by apply lookup_insert_eq.
    rewrite delete_insert_eq, delete_delete_eq, turns_left_rest.
    unfold attempts_left. rewrite lookup_insert_eq, Hj, Hrc'.
    unfold Config.MAX_RETRIES in *. lia.
  - rewrite turns_left_rest. unfold attempts_left. rewrite Hj.
    unfold Config.MAX_RETRIES. lia.
Qed.

Lemma sum_list_with_bound {A} (f : A -> nat) (c : nat) (l : list A) :
  (forall x, x ∈ l -> f x <= c) -> sum_list_with f l <= c * length l.
Proof.
  induction l as [| a l IH]; intros H; simpl; [lia |].
  pose proof (H a (list_elem_of_here _ _)).
  assert (sum_list_with f l <= c * length l)
    by (apply IH; intros x Hx; apply H; by apply list_elem_of_further).
  lia.
Qed.

Lemma turns_left_bound w :
  (forall jid j, db w !! jid = Some j -> (0 <= retry_count j)%Z) ->
  turns_left w <= 3 * Broker.zcard w.
Proof.
  intros H0. unfold turns_left, Broker.zcard. rewrite <- length_map_to_list.
  apply sum_list_with_bound. intros [k s] _. simpl. unfold attempts_left.
  destruct (db w !! k) as [j |] eqn:Hj; [| lia].
  specialize (H0 _ _ Hj). unfold Config.MAX_RETRIES. lia.
Qed.

Lemma start_quiescent env n w r w' :
  quiescent env w -> start env n w = (r, w') -> quiescent env w'.
Proof.
  revert w. induction n as [| n IH]; intros w Hq; simpl.
  - by intros [= _ <-].
  - destruct (worker_iteration env w) as [[| e] w1] eqn:Hturn.
    + apply IH. by eapply quiescent_turn.
    + intros H. apply pair_equal_spec in H as [_ <-]. by eapply quiescent_turn.
Qed.

Section Reliable.
Variable env : Env.
Hypothesis Hstore : reliable_store env.

Lemma quiescent_budgeted w : quiescent env w -> budgeted w.
Proof.
  intros Hq jid j Hj Hst.
  destruct (quiescent_records env Hstore w Hq jid j Hj) as (Hshape & _).
  destruct Hshape as [[_ H] | [[Hc _] | [Hf _]]]; [exact H | congruence | congruence].
Qed.

(** Within [n] turns the broker is empty, if [n] covers the attempts left;
    no record has appeared or gone. *)
Lemma start_drains n w :
  turns_left w <= n -> quiescent env w ->
  exists k w',
    k <= n /\ start env k w = (Py.Ok, w') /\ queue w' = ∅ /\
    forall jid, is_Some (db w' !! jid) <-> is_Some (db w !! jid).
Proof.
  revert w. induction n as [| n IH]; intros w Hleft Hq;
    (destruct (decide (queue w = ∅)) as [Hempty | Hne];
     [exists 0, w; split; [lia |]; by repeat split |]);
    pose proof (quiescent_inv env w Hstore Hq) as HI;
    destruct (worker_iteration_turn env Hstore w HI) as (w1 & Heq & Hturn);
    pose proof (turns_left_turn env w w1 (quiescent_budgeted w Hq) Hturn Hne) as Hless.
  - lia.
  - destruct (IH w1) as (k & w' & Hk & Hrun & Hq' & Hdom);
      [lia | by eapply quiescent_turn |].
    exists (S k), w'. split; [lia |]. split; [simpl; by rewrite Heq |].
    split; [exact Hq' |]. intros jid. rewrite Hdom.
    destruct Hturn as [_ -> _ _ | s j jf ? ? ? _ _ Hj _ _ _ -> _ _ _ _ _ _];
      [reflexivity |].
    destruct (decide (job_id j = jid)) as [<- | Hnj].
    + rewrite lookup_insert_eq, Hj. split; by eauto.
    + by rewrite lookup_insert_ne.
Qed.

(** A record that is not pending is out of the worker's reach. *)
Lemma start_keeps_settled n w jid j :
  Inv w -> db w !! jid = Some j -> status j <> "pending" ->
  exists w', start env n w = (Py.Ok, w') /\ Inv w' /\ db w' !! jid = Some j.
Proof.
  revert w. induction n as [| n IH]; intros w HI Hj Hst; [by exists w |].
  destruct (worker_iteration_turn env Hstore w HI) as (w1 & Heq & Hturn).
  simpl. rewrite Heq. apply IH; [by eapply turn_inv | | exact Hst].
  destruct Hturn as [_ -> _ _ | s j0 jf ? ? ? _ _ Hj0 Hst0 _ _ -> _ _ _ _ _ _];
    [exact Hj |].
  rewrite lookup_insert_ne; [exact Hj |]. intros <-. congruence.
Qed.

End Reliable.

(** X8: with a store that takes every write and no further submissions,
    the worker loop started at a quiescent point never raises and empties
    the broker within three turns per queued job; from then on it only
    polls, every record is completed or failed, and no record has appeared
    or gone. *)
Theorem broker_drains env w :
  reliable_store env ->
  quiescent env w ->
  exists n,
    n <= 3 * Broker.zcard w /\
    forall m, n <= m ->
      exists w',
        start env m w = (Py.Ok, w') /\
        queue w' = ∅ /\
        (forall jid, is_Some (db w' !! jid) <-> is_Some (db w !! jid)) /\
        (forall jid j, db w' !! jid = Some j ->
                       status j = "completed" \/ status j = "failed").
Proof.
  intros Hstore Hq.
  pose proof (quiescent_inv env w Hstore Hq) as HI.
  destruct (start_drains env Hstore (turns_left w) w (le_n _) Hq)
    as (k & w1 & Hk & Hrun & Hempty & Hdom).
  exists k. split.
  { pose proof (turns_left_bound w (inv_count _ HI)). lia. }
  intros m Hm. replace m with (k + (m - k)) by lia.
  rewrite start_app, Hrun.
  destruct (StoreFaults.idle_forever env (m - k) w1 Hempty) as (w' & Hrun' & Hdb & Hq').
  exists w'. split; [exact Hrun' |]. split; [exact Hq' |]. split.
  { intros jid. by rewrite Hdb, Hdom. }
  intros jid j Hj. rewrite Hdb in Hj.
  pose proof (start_quiescent env k w _ _ Hq Hrun) as Hq1.
  destruct (quiescent_records env Hstore w1 Hq1 jid j Hj) as (Hshape & _).
  destruct Hshape as [[Hp _] | [[Hc _] | [Hf _]]]; [| by left | by right].
  pose proof (quiescent_inv env w1 Hstore Hq1) as HI1.
  destruct (proj2 (inv_agree _ HI1 jid)) as [s Hs]; [by eauto |].
  rewrite Hempty, lookup_empty in Hs. discriminate.
Qed.

Lemma broker_drains_witness :
  exists n,
    n <= 3 * Broker.zcard Runs.world_submitted /\
    forall m, n <= m ->
      exists w', start Samples.env_failing m Runs.world_submitted = (Py.Ok, w') /\
                 queue w' = ∅.
Proof.
  destruct (broker_drains Samples.env_failing Runs.world_submitted
              Runs.env_failing_reliable Runs.world_submitted_quiescent)
    as (n & Hn & Hrun).
  exists n. split; [exact Hn |]. intros m Hm.
  destruct (Hrun m Hm) as (w' & Hstart & Hq & _). exists w'. split; [exact Hstart | exact Hq].
Defined.

(** X9: with a store that takes every write, a record that is completed or
    failed at a quiescent point is never changed again by the worker,
    however many turns it takes. *)
Theorem settled_record_is_final env w jid j n :
  reliable_store env ->
  quiescent env w ->
  db w !! jid = Some j ->
  status j = "completed" \/ status j = "failed" ->
  exists w', start env n w = (Py.Ok, w') /\ db w' !! jid = Some j /\
             queue w' !! jid = None.
Proof.
  intros Hstore Hq Hj Hst.
  assert (status j <> "pending") as Hnp by (destruct Hst as [-> | ->]; discriminate).
  destruct (start_keeps_settled env Hstore n w jid j (quiescent_inv env w Hstore Hq) Hj Hnp)
    as (w' & Hrun & HI' & Hj').
  exists w'. split; [exact Hrun |]. split; [exact Hj' |].
  destruct (queue w' !! jid) as [s |] eqn:Hs; [| reflexivity].
  destruct (proj1 (inv_agree _ HI' jid) (mk_is_Some _ _ Hs)) as (j2 & Hj2 & Hp).
  congruence.
Qed.

Lemma settled_record_is_final_witness :
  exists j w',
    db (start Samples.env_failing 3 Runs.world_submitted).2 !! "job-a" = Some j /\
    status j = "failed" /\
    start Samples.env_failing 2 (start Samples.env_failing 3 Runs.world_submitted).2
      = (Py.Ok, w') /\
    db w' !! "job-a" = Some j.
Proof.
  destruct (db (start Samples.env_failing 3 Runs.world_submitted).2 !! "job-a")
    as [j |] eqn:Hj; [| vm_compute in Hj; discriminate].
  assert (status j = "failed") as Hst
    by (vm_compute in Hj; injection Hj as <-; reflexivity).
  destruct (settled_record_is_final Samples.env_failing
              (start Samples.env_failing 3 Runs.world_submitted).2 "job-a" j 2
              Runs.env_failing_reliable
              (start_quiescent _ _ _ _ _ Runs.world_submitted_quiescent
                 (surjective_pairing _)) Hj (or_intror Hst))
    as (w' & Hrun & Hj' & _).
  exists j, w'. split; [reflexivity |]. split; [exact Hst |].
  split; [exact Hrun | exact Hj'].
Defined.

End Progress.

(** ** The fate of one job *)

Module Fate.
Import Models Worker Engine Records Progress.

Section Course.
Variable env : Env.
Hypothesis Hstore : reliable_store env.

(** The job we watch, and the number of failures before its first
    success: the run made at attempt count [r] succeeds exactly when
    [fails <= r]. *)
Variable target : Job.
Variable fails : Z.
Variable base : nat.

Hypothesis Hrun :
  forall j w, job_id j = job_id target -> job_type j = job_type target ->
              payload j = payload target ->
              (execute_job env j w).1 = (fails <=? retry_count j)%Z.

Definition on_course (w : World) : Prop :=
  exists j, db w !! job_id target = Some j /\
            job_type j = job_type target /\ payload j = payload target /\
            failed_runs (job_id target) (trace w) = base + Z.to_nat (retry_count j) /\
            ((status j = "pending" /\
              (0 <= retry_count j <= fails)%Z /\ (retry_count j < Config.MAX_RETRIES)%Z) \/
             (status j = "completed" /\
              retry_count j = fails /\ (0 <= fails < Config.MAX_RETRIES)%Z) \/
             (status j = "failed" /\
              retry_count j = Config.MAX_RETRIES /\ (Config.MAX_RETRIES <= fails)%Z)).

Lemma turn_on_course w w' : turn env w w' -> on_course w -> on_course w'.
Proof.
  intros [Hq Hdb Hq' Hruns
         | s j0 jf picked at_run ran Hq0 _ Hj0 Hst0 Hpicked Hran Hdb Hid Hty Hpr Hpl Hfin Hruns]
         (j & Hj & Hjt & Hjp & Hatt & Hcase).
  - exists j. rewrite Hdb, Hruns. by eauto 10.
  - destruct (decide (job_id j0 = job_id target)) as [Heq | Hne].
    + rewrite Heq in *. assert (j0 = j) as -> by congruence.
      assert (ran = (fails <=? retry_count j)%Z) as Hran'.
      { rewrite <- Hran. try subst picked.
        rewrite (Hrun (mark_picked (clock w) j) at_run) by (simpl; congruence).
        reflexivity. }
      destruct Hcase as [(_ & Hrc & Hlt) | [(Hc & _) | (Hf & _)]]; [| congruence | congruence].
      exists jf. rewrite Hdb, lookup_insert_eq, Hruns. unfold runs_added.
      rewrite String.eqb_refl.
      split; [reflexivity |]. split; [congruence |]. split; [congruence |].
      unfold Config.MAX_RETRIES in *.
      destruct Hfin as [Hs Hrc' _ | sc Hs Hrc' Hlt' _ _ _ | Hs Hrc' Hge _ _];
        unfold Config.MAX_RETRIES in *.
      * symmetry in Hran'. apply Z.leb_le in Hran'.
        split; [rewrite Hatt, Hrc'; lia |]. right. left.
        split; [exact Hs |]. split; lia.
      * symmetry in Hran'. apply Z.leb_gt in Hran'.
        split; [rewrite Hatt, Hrc'; lia |]. left.
        split; [exact Hs |]. split; lia.
      * symmetry in Hran'. apply Z.leb_gt in Hran'.
        split; [rewrite Hatt, Hrc'; lia |]. right. right.
        split; [exact Hs |]. split; lia.
    + exists j. rewrite Hdb, lookup_insert_ne by done. rewrite Hruns.
      unfold runs_added. apply String.eqb_neq in Hne. rewrite Hne.
      repeat (split; [first [assumption | reflexivity] |]).
      split; [destruct ran; lia | exact Hcase].
Qed.

Lemma start_on_course n w :
  Inv w -> on_course w ->
  exists w', start env n w = (Py.Ok, w') /\ on_course w'.
Proof.
  revert w. induction n as [| n IH]; intros w HI Hc; [by exists w |].
  destruct (worker_iteration_turn env Hstore w HI) as (w1 & Heq & Hturn).
  simpl. rewrite Heq. apply IH; [by eapply turn_inv | by eapply turn_on_course].
Qed.

End Course.

(** X10: with a store that takes every write, a pending job with no attempt
    whose runs fail [fails] times and then succeed ends up, after finitely
    many turns and for every longer run of the loop, completed with an
    attempt count of [fails] if that is below the bound, and failed with
    an attempt count equal to the bound otherwise; the trace holds as many
    failed runs of the job as its final attempt count. *)
Theorem job_fate env w j fails :
  reliable_store env ->
  quiescent env w ->
  db w !! job_id j = Some j ->
  status j = "pending" ->
  retry_count j = 0%Z ->
  (0 <= fails)%Z ->
  (forall j' w', job_id j' = job_id j -> job_type j' = job_type j ->
                 payload j' = payload j ->
                 (execute_job env j' w').1 = (fails <=? retry_count j')%Z) ->
  exists n, forall m, n <= m ->
    exists w' jf,
      start env m w = (Py.Ok, w') /\
      db w' !! job_id j = Some jf /\
      queue w' !! job_id j = None /\
      failed_runs (job_id j) (trace w') =
        failed_runs (job_id j) (trace w) + Z.to_nat (retry_count jf) /\
      ((fails < Config.MAX_RETRIES)%Z ->
       status jf = "completed" /\ retry_count jf = fails) /\
      ((Config.MAX_RETRIES <= fails)%Z ->
       status jf = "failed" /\ retry_count jf = Config.MAX_RETRIES).
Proof.
  intros Hstore Hq Hj Hst Hrc Hfails Hrun.
  pose proof (quiescent_inv env w Hstore Hq) as HI.
  destruct (start_drains env Hstore (turns_left w) w (le_n _) Hq)
    as (k & w1 & _ & Hstart & Hempty & _).
  exists k. intros m Hm.
  assert (on_course j fails (failed_runs (job_id j) (trace w)) w) as Hc.
  { exists j. split; [exact Hj |]. split; [reflexivity |]. split; [reflexivity |].
    split; [rewrite Hrc; simpl; lia |]. left.
    split; [exact Hst |]. rewrite Hrc. unfold Config.MAX_RETRIES. lia. }
  destruct (start_on_course env Hstore j fails _ Hrun m w HI Hc)
    as (w' & Hrun' & (jf & Hjf & _ & _ & Hatt & Hcase)).
  assert (queue w' = ∅) as Hq'.
  { replace m with (k + (m - k)) in Hrun' by lia.
    rewrite start_app, Hstart in Hrun'.
    destruct (StoreFaults.idle_forever env (m - k) w1 Hempty) as (w2 & Hidle & _ & Hq2).
    rewrite Hidle in Hrun'. by apply pair_equal_spec in Hrun' as [_ <-]. }
  exists w', jf. split; [exact Hrun' |]. split; [exact Hjf |].
  split; [by rewrite Hq', lookup_empty |]. split; [exact Hatt |].
  pose proof (start_quiescent env m w _ _ Hq Hrun') as Hqm.
  pose proof (quiescent_inv env w' Hstore Hqm) as HI'.
  destruct Hcase as [(Hp & _) | [(Hc' & Hk & Hlt) | (Hf & Hk & Hge)]].
  - exfalso. destruct (proj2 (inv_agree _ HI' (job_id j))) as [s Hs]; [by eauto |].
    rewrite Hq', lookup_empty in Hs. discriminate.
  - split; [by intros _ | intros Hge; lia].
  - split; [intros Hlt; lia | by intros _].
Qed.

(** A handler that fails on the first run of a job and succeeds on the
    second. *)
Definition env_second_try : Env :=
  {| store_ok := fun _ => true;
     handler_ok := fun _ job => (1 <=? retry_count job)%Z |}.

Lemma job_fate_witness :
  exists n, forall m, n <= m ->
    exists w' jf,
      start env_second_try m
        (App.submit_job env_second_try "job-a" Samples.submit_body empty_world).2
        = (Py.Ok, w') /\
      db w' !! "job-a" = Some jf /\
      status jf = "completed" /\ retry_count jf = 1%Z.
Proof.
  destruct (job_fate env_second_try
              (App.submit_job env_second_try "job-a" Samples.submit_body empty_world).2
              Samples.submitted_job 1) as (n & Hn).
  - intros t. reflexivity.
  - eapply quiescent_submit; [apply quiescent_start | apply surjective_pairing].
  - vm_compute. reflexivity.
  - reflexivity.
  - reflexivity.
  - lia.
  - intros j' w' _ Hty Hpl. unfold execute_job, send_email, mock_handler.
    rewrite Hty, Hpl. reflexivity.
  - exists n. intros m Hm.
    destruct (Hn m Hm) as (w' & jf & Hrun & Hjf & _ & _ & Hdone & _).
    exists w', jf. split; [exact Hrun |]. split; [exact Hjf |].
    apply Hdone. unfold Config.MAX_RETRIES. lia.
Defined.

(** X11: with a store that takes every write, a pending job whose payload is
    not a JSON object can never complete, whatever its kind and whatever
    the handlers would draw: every run fails, and the job ends failed with
    an attempt count equal to the bound. *)
Theorem non_object_payload_never_completes env w j :
  reliable_store env ->
  quiescent env w ->
  db w !! job_id j = Some j ->
  status j = "pending" ->
  (forall fields, payload j <> JObj fields) ->
  (forall picked at_run, payload picked = payload j ->
                         (execute_job env picked at_run).1 = false) /\
  exists n, forall m, n <= m ->
    exists w' jf,
      start env m w = (Py.Ok, w') /\
      db w' !! job_id j = Some jf /\
      status jf = "failed" /\
      retry_count jf = Config.MAX_RETRIES /\
      queue w' !! job_id j = None.
Proof.
  intros Hstore Hq Hj Hst Hpl.
  assert (forall picked at_run, payload picked = payload j ->
                                (execute_job env picked at_run).1 = false) as Hfail.
  { intros picked at_run Heq. unfold execute_job, send_email, process_data,
      generate_report, mock_handler. cbn [fst]. rewrite Heq.
    destruct (payload j) as [| | | | |fields] eqn:Hp;
      try (repeat destruct (String.eqb _ _); reflexivity).
    by destruct (Hpl fields). }
  split; [exact Hfail |].
  pose proof (quiescent_inv env w Hstore Hq) as HI.
  destruct (quiescent_records env Hstore w Hq _ _ Hj) as ([[_ Hrc] | [[Hc _] | [Hf _]]] & _);
    [| congruence | congruence].
  destruct (doomed_job_fails env Hstore j (failed_runs (job_id j) (trace w))
              (fun j' w' _ _ Heq => Hfail j' w' Heq) w HI) as (n & Hn).
  { exists j. split; [exact Hj |]. split; [reflexivity |]. split; [reflexivity |].
    split; [unfold attempts_so_far; lia |]. left. split; [exact Hst | lia]. }
  exists n. intros m Hm.
  destruct (Hn m Hm) as (w' & Hrun & _ & jf & Hjf & Hs & Hc & _ & Hqn & _).
  exists w', jf. by repeat (split; [assumption |]).
Qed.

Lemma non_object_payload_never_completes_witness :
  exists n, forall m, n <= m ->
    exists w' jf,
      start Samples.env_succeeding m
        (App.submit_job Samples.env_succeeding "job-s"
           (JObj [("job_type", JStr "send_email"); ("priority", JStr "low");
                  ("payload", JStr "not an object")]) empty_world).2 = (Py.Ok, w') /\
      db w' !! "job-s" = Some jf /\
      status jf = "failed".
Proof.
  destruct (non_object_payload_never_completes Samples.env_succeeding
              (App.submit_job Samples.env_succeeding "job-s"
                 (JObj [("job_type", JStr "send_email"); ("priority", JStr "low");
                        ("payload", JStr "not an object")]) empty_world).2
              (new_job "job-s" "send_email" "low" (JStr "not an object") 0))
    as (_ & n & Hn).
  - intros t. reflexivity.
  - eapply quiescent_submit; [apply quiescent_start | apply surjective_pairing].
  - vm_compute. reflexivity.
  - reflexivity.
  - intros fields. discriminate.
  - exists n. intros m Hm.
    destruct (Hn m Hm) as (w' & jf & Hrun & Hjf & Hs & _).
    exists w', jf. split; [exact Hrun |]. split; [exact Hjf | exact Hs].
Defined.

End Fate.

(** ** A record whose priority is not in the table *)

Module OffTable.
Import Models Worker WorkerFacts Engine.




End OffTable.

(** ** The read side of the API *)

Module Reads.
Import Models Worker Engine Records.

(** Order of [ORDER BY created_at DESC]: newer records first. *)
Definition newer_first (a b : Job) : Prop := created_at b <= created_at a.

#[local] Instance newer_first_dec a b : Decision (newer_first a b).
Proof. unfold newer_first. apply _. Defined.

#[local] Instance newer_first_total : Total newer_first.
Proof. intros a b. unfold newer_first. lia. Qed.

#[local] Instance newer_first_trans : Transitive newer_first.
Proof. intros a b c. unfold newer_first. lia. Qed.

(** [get_all_jobs]: every row, newest first.  Among rows of one creation
    time SQLite promises no order; the order the sort leaves is not used
    below. *)
Definition get_all_jobs (w : World) : list Job :=
  merge_sort newer_first (map_to_list (db w)).*2.

(** The row [list_jobs] shows for a job: it leaves out the payload and the
    error. *)
Record Summary : Type := mkSummary {
  s_job_id : string;
  s_job_type : string;
  s_priority : string;
  s_status : string;
  s_retry_count : Z;
  s_created_at : nat;
  s_picked_at : option nat;
  s_completed_at : option nat
}.

Definition summary (j : Job) : Summary :=
  {| s_job_id := job_id j; s_job_type := job_type j; s_priority := priority j;
     s_status := status j; s_retry_count := retry_count j;
     s_created_at := created_at j; s_picked_at := picked_at j;
     s_completed_at := completed_at j |}.

(** [list_jobs]: status code, rows and [total_jobs]. *)
Definition list_jobs (w : World) : Z * list Summary * nat :=
  let jobs := get_all_jobs w in
  let jobs_data := summary <$> jobs in
  (200%Z, jobs_data, length jobs_data).

(** [get_job_status]: 404 without a record, else 200 with the record. *)
Definition get_job_status (jid : string) (w : World) : Z * option Job :=
  match Database.get_job jid w with
  | None => (404%Z, None)
  | Some job => (200%Z, Some job)
  end.

(** The loop of [queue_stats] over the jobs. *)
Definition status_counts (jobs : list Job) : gmap string nat :=
  foldl (fun counts job =>
           <[status job := default 0 (counts !! status job) + 1]> counts)
        ∅ jobs.

(** [queue_stats]: [queue_size], [status_counts] and [total_jobs]. *)
Definition queue_stats (w : World) : nat * gmap string nat * nat :=
  let queue_size := Broker.zcard w in
  let all_jobs := get_all_jobs w in
  (queue_size, status_counts all_jobs, length all_jobs).

(** Number of jobs of a status in a list. *)
Definition count_status (s : string) (jobs : list Job) : nat :=
  sum_list_with (fun j => if String.eqb (status j) s then 1 else 0) jobs.

Lemma get_all_jobs_perm w : get_all_jobs w ≡ₚ (map_to_list (db w)).*2.
Proof. apply merge_sort_Permutation. Qed.

Lemma elem_of_get_all_jobs w j :
  j ∈ get_all_jobs w <-> exists jid, db w !! jid = Some j.
Proof.
  rewrite get_all_jobs_perm, list_elem_of_fmap. split.
  - intros ([jid j'] & -> & Hin). exists jid. by apply elem_of_map_to_list.
  - intros (jid & Hj). exists (jid, j). split; [reflexivity |].
    by apply elem_of_map_to_list.
Qed.


(** What the loop of [queue_stats] leaves under a status. *)
Lemma status_counts_fold jobs (counts : gmap string nat) s :
  foldl (fun counts job =>
           <[status job := default 0 (counts !! status job) + 1]> counts)
        counts jobs !! s =
  match counts !! s with
  | Some n => Some (n + count_status s jobs)
  | None => if Nat.eqb (count_status s jobs) 0 then None
            else Some (count_status s jobs)
  end.
Proof.
  revert counts. induction jobs as [| j jobs IH]; intros counts.
  - simpl. unfold count_status. simpl. destruct (counts !! s); [f_equal; lia | reflexivity].
  - simpl. rewrite IH. unfold count_status. simpl.
    fold (count_status s jobs).
    destruct (String.eqb_spec (status j) s) as [-> | Hne].
    + rewrite lookup_insert_eq.
      destruct (counts !! s) as [n |]; simpl; [f_equal; lia |].
      destruct (count_status s jobs); simpl; f_equal; lia.
    + rewrite lookup_insert_ne by done. reflexivity.
Qed.

Lemma status_counts_lookup jobs s :
  default 0 (status_counts jobs !! s) = count_status s jobs.
Proof.
  unfold status_counts. rewrite status_counts_fold, lookup_empty.
  destruct (Nat.eqb_spec (count_status s jobs) 0) as [-> | _]; reflexivity.
Qed.

Lemma sum_list_with_fmap {A B} (f : B -> nat) (g : A -> B) (l : list A) :
  sum_list_with f (g <$> l) = sum_list_with (fun x => f (g x)) l.
Proof. induction l as [| a l IH]; [reflexivity |]. cbn. f_equal. exact IH. Qed.

(** Size of the part of the store with a given status. *)
Lemma size_filter_status s (d : gmap string Job) :
  size (filter (fun kv : string * Job => status kv.2 = s) d) =
  sum_list_with (fun kv : string * Job => if String.eqb (status kv.2) s then 1 else 0)
    (map_to_list d).
Proof.
  induction d as [| i x d Hi IH] using map_ind.
  - by rewrite map_filter_empty, map_to_list_empty.
  - rewrite (map_to_list_insert d i x Hi). simpl. rewrite <- IH.
    rewrite map_filter_insert. simpl.
    destruct (String.eqb_spec (status x) s) as [Hs | Hs].
    + rewrite decide_True by done. apply map_size_insert_None.
      apply map_lookup_filter_None. by left.
    + rewrite decide_False by done. by rewrite delete_id.
Qed.

Lemma count_status_store w s :
  count_status s (get_all_jobs w) =
  size (filter (fun kv : string * Job => status kv.2 = s) (db w)).
Proof.
  unfold count_status. rewrite get_all_jobs_perm, sum_list_with_fmap.
  symmetry. apply size_filter_status.
Qed.

Lemma count_status_total jobs :
  (forall j, j ∈ jobs ->
     status j = "pending" \/ status j = "completed" \/ status j = "failed") ->
  length jobs =
    count_status "pending" jobs + count_status "completed" jobs +
    count_status "failed" jobs.
Proof.
  induction jobs as [| j jobs IH]; intros H; [reflexivity |].
  unfold count_status in *. simpl.
  rewrite IH by (intros x Hx; apply H; by apply list_elem_of_further).
  destruct (H j (list_elem_of_here _ _)) as [-> | [-> | ->]]; simpl; lia.
Qed.

(** X14: with a store that takes every write, the statistics read at a
    quiescent point agree with each other: the queue size is the number of
    pending jobs in the histogram, the histogram has no entry for
    processing, its pending, completed and failed counts add up to the
    total, and the total is the number of stored records. *)
Theorem queue_stats_consistent env w :
  reliable_store env ->
  quiescent env w ->
  exists counts total,
    queue_stats w = (default 0 (counts !! "pending"), counts, total) /\
    counts !! "processing" = None /\
    total = default 0 (counts !! "pending") + default 0 (counts !! "completed") +
            default 0 (counts !! "failed") /\
    total = size (db w).
Proof.
  intros Hstore Hq.
  pose proof (quiescent_inv env w Hstore Hq) as HI.
  assert (forall j, j ∈ get_all_jobs w ->
            status j = "pending" \/ status j = "completed" \/ status j = "failed")
    as Hstatus.
  { intros j Hin. apply elem_of_get_all_jobs in Hin as (jid & Hj).
    destruct (quiescent_records env Hstore w Hq jid j Hj) as (Hshape & _).
    destruct Hshape as [[H _] | [[H _] | [H _]]]; auto. }
  exists (status_counts (get_all_jobs w)), (length (get_all_jobs w)).
  split; [| split; [| split]].
  - unfold queue_stats. cbv zeta. f_equal. f_equal.
    rewrite status_counts_lookup, count_status_store.
    unfold Broker.zcard. rewrite <- !size_dom. f_equal.
    apply set_eq. intros k. rewrite !elem_of_dom. rewrite (inv_agree _ HI k).
    unfold is_Some. setoid_rewrite map_lookup_filter_Some. simpl. naive_solver.
  - unfold status_counts. rewrite status_counts_fold, lookup_empty.
    assert (count_status "processing" (get_all_jobs w) = 0) as ->; [| reflexivity].
    unfold count_status. generalize (get_all_jobs w) Hstatus.
    induction l as [| j l IH]; intros H; [reflexivity |]. simpl.
    rewrite IH by (intros x Hx; apply H; by apply list_elem_of_further).
    destruct (H j (list_elem_of_here _ _)) as [-> | [-> | ->]]; reflexivity.
  - rewrite !status_counts_lookup. by apply count_status_total.
  - rewrite (Permutation_length (get_all_jobs_perm w)), length_fmap.
    apply length_map_to_list.
Qed.

Lemma queue_stats_consistent_witness :
  exists counts total,
    queue_stats Runs.world_after_turn =
      (default 0 (counts !! "pending"), counts, total) /\
    total = size (db Runs.world_after_turn).
Proof.
  destruct (queue_stats_consistent Samples.env_failing Runs.world_after_turn
              Runs.env_failing_reliable Runs.world_after_turn_quiescent)
    as (counts & total & Hstats & _ & _ & Htotal).
  exists counts, total. split; [exact Hstats | exact Htotal].
Defined.

(** What the worker never changes in a record, and the one direction in
    which the attempt count moves. *)
Definition same_job (j j' : Job) : Prop :=
  job_id j' = job_id j /\ job_type j' = job_type j /\ priority j' = priority j /\
  payload j' = payload j /\ created_at j' = created_at j /\
  (retry_count j <= retry_count j')%Z.

Lemma same_job_refl j : same_job j j.
Proof. unfold same_job. repeat split; lia. Qed.

Lemma same_job_trans j1 j2 j3 : same_job j1 j2 -> same_job j2 j3 -> same_job j1 j3.
Proof. unfold same_job. intros (? & ? & ? & ? & ? & ?) (? & ? & ? & ? & ? & ?).
  repeat split; try congruence. lia. Qed.

Lemma same_job_outcome ran now t j :
  same_job j (Lifecycle.outcome_record ran now (mark_picked t j)).
Proof.
  unfold Lifecycle.outcome_record, same_job.
  change (retry_count (mark_picked t j)) with (retry_count j).
  destruct ran; [| destruct (retry_count j + 1 <? Config.MAX_RETRIES)%Z]; simpl;
    repeat split; lia.
Qed.

Lemma start_keeps_records env n w :
  reliable_store env -> Inv w ->
  exists w',
    start env n w = (Py.Ok, w') /\
    forall jid,
      match db w !! jid with
      | Some j => exists j', db w' !! jid = Some j' /\ same_job j j'
      | None => db w' !! jid = None
      end.
Proof.
  intros Hstore. revert w. induction n as [| n IH]; intros w HI.
  - exists w. split; [reflexivity |]. intros jid.
    destruct (db w !! jid) as [j |]; [| reflexivity]. exists j. split; [reflexivity |].
    apply same_job_refl.
  - destruct (Lifecycle.worker_iteration_exact env Hstore w HI) as (w1 & Heq & Hcases).
    assert (Inv w1) as HI1.
    { destruct (worker_iteration_turn env Hstore w HI) as (w1' & Heq' & Ht).
      rewrite Heq in Heq'. apply pair_equal_spec in Heq' as [_ <-]. by eapply turn_inv. }
    destruct (IH w1 HI1) as (w' & Hrun & Hkeep).
    exists w'. split; [simpl; by rewrite Heq |]. intros jid. specialize (Hkeep jid).
    destruct Hcases as [(_ & Hdb & _) | (j0 & sc & ran & _ & Hj0 & _ & _ & Hdb & _)].
    + by rewrite Hdb in Hkeep.
    + rewrite Hdb in Hkeep. destruct (decide (job_id j0 = jid)) as [<- | Hne].
      * rewrite lookup_insert_eq in Hkeep. rewrite Hj0.
        destruct Hkeep as (j' & Hj' & Hsame). exists j'. split; [exact Hj' |].
        eapply same_job_trans; [apply same_job_outcome | exact Hsame].
      * by rewrite lookup_insert_ne in Hkeep.
Qed.

(** X15: with a store that takes every write, the worker neither loses nor
    invents a record: after any number of turns from a quiescent point,
    [get_job_status] answers 404 for an id that had no record, and 200 for
    an id that had one, with the same id, kind, priority, payload and
    creation time and an attempt count that has not gone down. *)
Theorem job_status_stays_queryable env w n jid :
  reliable_store env ->
  quiescent env w ->
  exists w',
    start env n w = (Py.Ok, w') /\
    match get_job_status jid w with
    | (_, Some j) =>
        exists j', get_job_status jid w' = (200%Z, Some j') /\ same_job j j'
    | (_, None) => get_job_status jid w' = (404%Z, None)
    end.
Proof.
  intros Hstore Hq.
  destruct (start_keeps_records env n w Hstore (quiescent_inv env w Hstore Hq))
    as (w' & Hrun & Hkeep).
  exists w'. split; [exact Hrun |]. specialize (Hkeep jid).
  unfold get_job_status, Database.get_job.
  destruct (db w !! jid) as [j |].
  - destruct Hkeep as (j' & -> & Hsame). by exists j'.
  - by rewrite Hkeep.
Qed.

Lemma job_status_stays_queryable_witness :
  exists w',
    start Samples.env_failing 2 Runs.world_submitted = (Py.Ok, w') /\
    exists j', get_job_status "job-a" w' = (200%Z, Some j') /\
               same_job Samples.submitted_job j'.
Proof.
  destruct (job_status_stays_queryable Samples.env_failing Runs.world_submitted 2 "job-a"
              Runs.env_failing_reliable Runs.world_submitted_quiescent)
    as (w' & Hrun & Hstatus).
  exists w'. split; [exact Hrun | exact Hstatus].
Defined.

(** X16: a submission is visible at once: after a 201, [get_job_status]
    on the new id answers 200 with the very record that was answered, and
    the record is among the rows of [get_all_jobs] and [list_jobs]; the
    answers for every other id are those of before; and after any other
    answer the three read endpoints answer as before. *)
Theorem submitted_job_is_visible env new_id data w resp w' :
  App.submit_job env new_id data w = (resp, w') ->
  (status_code resp = 201%Z ->
   exists job,
     submitted resp = Some job /\ job_id job = new_id /\ status job = "pending" /\
     get_job_status new_id w' = (200%Z, Some job) /\
     job ∈ get_all_jobs w' /\
     summary job ∈ (list_jobs w').1.2) /\
  (forall k, k <> new_id -> get_job_status k w' = get_job_status k w) /\
  (status_code resp <> 201%Z ->
   (forall k, get_job_status k w' = get_job_status k w) /\
   list_jobs w' = list_jobs w /\ queue_stats w' = queue_stats w).
Proof.
  intros Hsub.
  destruct (submit_job_effect _ _ _ _ _ _ Hsub)
    as [(Hdb & Hq & Hcode) | (job & sc & Hcode & Hjob & Hid & Hst & _ & _ & Hdb & _)].
  - split; [intros H201; contradiction |].
    assert (forall k, get_job_status k w' = get_job_status k w) as Hsame.
    { intros k. unfold get_job_status, Database.get_job. by rewrite Hdb. }
    split; [intros k _; apply Hsame |]. intros _. split; [exact Hsame |].
    unfold list_jobs, queue_stats, get_all_jobs, Broker.zcard. by rewrite Hdb, Hq.
  - split; [| split; [| intros Hne; contradiction]].
    + intros _. exists job. split; [exact Hjob |]. split; [exact Hid |].
      split; [exact Hst |].
      assert (db w' !! new_id = Some job) as Hnew by (rewrite Hdb; apply lookup_insert_eq).
      assert (job ∈ get_all_jobs w') as Hin by (apply elem_of_get_all_jobs; by exists new_id).
      split; [unfold get_job_status, Database.get_job; by rewrite Hnew |].
      split; [exact Hin |].
      unfold list_jobs. cbn [fst snd]. apply list_elem_of_fmap. by exists job.
    + intros k Hk. unfold get_job_status, Database.get_job.
      by rewrite Hdb, lookup_insert_ne.
Qed.

Lemma submitted_job_is_visible_witness :
  exists job,
    get_job_status "job-a" Runs.world_submitted = (200%Z, Some job) /\
    job ∈ get_all_jobs Runs.world_submitted.
Proof.
  destruct (proj1 (submitted_job_is_visible Samples.env_failing "job-a"
                     Samples.submit_body empty_world _ _ (surjective_pairing _)))
    as (job & _ & _ & _ & Hget & Hin & _); [reflexivity |].
  exists job. split; [exact Hget | exact Hin].
Defined.

End Reads.

(** ** Jobs as dictionaries *)

Module Serialization.
Import Models.

Definition of_time (t : option nat) : json :=
  match t with Some n => JNum (Z.of_nat n) | None => JNull end.

Definition of_text (s : option string) : json :=
  match s with Some x => JStr x | None => JNull end.

(** [Job.to_dict], as the items of the dict; a time is the reading of the
    logical clock. *)
Definition to_dict (j : Job) : list (string * json) :=
  [("job_id", JStr (job_id j)); ("job_type", JStr (job_type j));
   ("priority", JStr (priority j)); ("payload", payload j);
   ("status", JStr (status j)); ("retry_count", JNum (retry_count j));
   ("created_at", JNum (Z.of_nat (created_at j)));
   ("picked_at", of_time (picked_at j)); ("completed_at", of_time (completed_at j));
   ("error_message", of_text (error_message j))].

Definition as_text (v : json) : option string :=
  match v with JStr s => Some s | _ => None end.

Definition as_int (v : json) : option Z :=
  match v with JNum n => Some n | _ => None end.

Definition as_time (v : json) : option nat :=
  match v with JNum n => if (0 <=? n)%Z then Some (Z.to_nat n) else None | _ => None end.

Definition as_opt_time (v : json) : option (option nat) :=
  match v with JNull => Some None | _ => Some <$> as_time v end.

Definition as_opt_text (v : json) : option (option string) :=
  match v with JNull => Some None | _ => Some <$> as_text v end.

(** [job_id or str(uuid.uuid4())] in [Job.__init__]: an id that is empty
    or [None] is replaced by a fresh one. *)
Definition id_or_fresh (fresh_id : string) (v : json) : option string :=
  match v with
  | JNull => Some fresh_id
  | JStr s => Some (if String.eqb s "" then fresh_id else s)
  | _ => None
  end.

(** [Job.from_dict].  [None] stands for the [KeyError] of a missing key;
    the fields of [Job] are typed here, so a dict holding a value of
    another type than the field's has no image either. *)
Definition from_dict (fresh_id : string) (data : list (string * json)) : option Job :=
  jt ← Py.assoc "job_type" data ≫= as_text;
  pr ← Py.assoc "priority" data ≫= as_text;
  pl ← Py.assoc "payload" data;
  id ← Py.assoc "job_id" data ≫= id_or_fresh fresh_id;
  st ← Py.assoc "status" data ≫= as_text;
  rc ← Py.assoc "retry_count" data ≫= as_int;
  created ← Py.assoc "created_at" data ≫= as_time;
  picked ← Py.assoc "picked_at" data ≫= as_opt_time;
  completed ← Py.assoc "completed_at" data ≫= as_opt_time;
  err ← Py.assoc "error_message" data ≫= as_opt_text;
  Some {| job_id := id; job_type := jt; priority := pr; payload := pl;
          status := st; retry_count := rc; created_at := created;
          picked_at := picked; completed_at := completed; error_message := err |}.

(** A dict with one key taken out. *)
Definition without (key : string) (data : list (string * json)) : list (string * json) :=
  List.filter (fun kv => negb (String.eqb kv.1 key)) data.

Lemma as_time_of_nat n : as_time (JNum (Z.of_nat n)) = Some n.
Proof.
  unfold as_time. destruct (Z.leb_spec 0 (Z.of_nat n)); [| lia].
  by rewrite Nat2Z.id.
Qed.

Lemma as_opt_time_of_time t : as_opt_time (of_time t) = Some t.
Proof.
  destruct t as [n |]; [| reflexivity]. unfold of_time, as_opt_time.
  by rewrite as_time_of_nat.
Qed.

Lemma as_opt_text_of_text s : as_opt_text (of_text s) = Some s.
Proof. by destruct s. Qed.

(** X17: a job written out by [to_dict] is read back by [from_dict] as the
    same job, provided its id is not empty; a job with an empty id comes
    back under a fresh id, every other field unchanged; and with any one of
    the ten keys missing [from_dict] raises. *)
Theorem dict_round_trip fresh_id j :
  job_id j <> "" ->
  from_dict fresh_id (to_dict j) = Some j /\
  (forall key, key ∈ (to_dict j).*1 ->
               from_dict fresh_id (without key (to_dict j)) = None) /\
  from_dict fresh_id (to_dict (mkJob "" (job_type j) (priority j) (payload j)
                                 (status j) (retry_count j) (created_at j)
                                 (picked_at j) (completed_at j) (error_message j))) =
    Some (mkJob fresh_id (job_type j) (priority j) (payload j) (status j)
            (retry_count j) (created_at j) (picked_at j) (completed_at j)
            (error_message j)).
Proof.
  intros Hid. split; [| split].
  - unfold from_dict, to_dict. cbn -[as_time as_opt_time as_opt_text].
    rewrite as_time_of_nat, !as_opt_time_of_time, as_opt_text_of_text.
    cbn. apply String.eqb_neq in Hid. rewrite Hid. by destruct j.
  - intros key Hin. unfold to_dict in Hin. cbn in Hin.
    repeat (apply elem_of_cons in Hin as [-> | Hin];
            [unfold from_dict, to_dict, without;
             cbn -[as_time as_opt_time as_opt_text];
             rewrite ?as_time_of_nat, ?as_opt_time_of_time, ?as_opt_text_of_text;
             reflexivity |]).
    by apply not_elem_of_nil in Hin.
  - unfold from_dict, to_dict. cbn -[as_time as_opt_time as_opt_text].
    rewrite as_time_of_nat, !as_opt_time_of_time, as_opt_text_of_text. reflexivity.
Qed.

Lemma dict_round_trip_witness :
  from_dict "fresh" (to_dict Samples.picked_job) = Some Samples.picked_job.
Proof.
  apply (dict_round_trip "fresh" Samples.picked_job). discriminate.
Defined.

End Serialization.

(** ** Writing a record and reading it back *)

Module StoreRoundTrip.
Import Models Database.


End StoreRoundTrip.

(** ** The delays that are slept *)

Module Delays.
Import Models Worker WorkerFacts FailureHandling.

(** X19: for a job with no negative attempt count, the delay slept by
    [handle_job_failure] is the first or the second entry of the delay
    table; the third entry, 9 seconds, is never slept, because the third
    failure gives the job up. *)
Theorem last_delay_is_never_slept env job msg w d :
  (0 <= retry_count job)%Z ->
  EvSleep d ∈ new_events w (handle_job_failure env job msg w).2 ->
  (d = 1 \/ d = 4)%Z /\
  (retry_count job < 2)%Z /\
  Config.RETRY_DELAYS !! Z.to_nat (retry_count job) = Some d.
Proof.
  intros H0 Hin.
  destruct (handle_job_failure_shape env job msg w)
    as [[Hr Heq] | [(Hr & Hnone & Heq) | (Hr & d' & Hd & Hcall)]].
  - rewrite Heq in Hin. cbn [snd] in Hin.
    rewrite (new_events_app w _ [EvShouldRetry (job_id job) false;
                                  EvAlert (job_id job) msg;
                                  EvShouldRetry (job_id job) false;
                                  EvSave (failed_record job msg w)
                                    (store_ok env (clock w))]) in Hin.
    + repeat (apply elem_of_cons in Hin as [Hin | Hin]; [discriminate |]).
      by apply not_elem_of_nil in Hin.
    + unfold Database.update_job_status, decided_final. autorewrite with world.
      by rewrite <- !app_assoc.
  - rewrite Heq in Hin. cbn [snd] in Hin.
    rewrite (new_events_app w _ [EvShouldRetry (job_id job) true;
                                  EvShouldRetry (job_id job) true]) in Hin.
    + repeat (apply elem_of_cons in Hin as [Hin | Hin]; [discriminate |]).
      by apply not_elem_of_nil in Hin.
    + unfold decided_retry. autorewrite with world. by rewrite <- !app_assoc.
  - unfold should_retry in Hr. apply Z.ltb_lt in Hr. simpl in Hr.
    unfold Config.MAX_RETRIES in Hr.
    assert (d = d') as ->.
    { cbn zeta in Hcall.
      destruct Hcall as [[_ Heq] | (sc & _ & Heq)]; rewrite Heq in Hin; cbn [snd] in Hin.
      - rewrite (new_events_app w _ [EvShouldRetry (job_id job) true;
                                      EvShouldRetry (job_id job) true;
                                      EvSave (retried_record job msg w)
                                        (store_ok env (clock w));
                                      EvSleep d']) in Hin.
        + repeat (apply elem_of_cons in Hin as [Hin | Hin];
                  [first [discriminate | by injection Hin] |]).
          by apply not_elem_of_nil in Hin.
        + unfold Database.update_job_status, decided_retry. autorewrite with world.
          by rewrite <- !app_assoc.
      - rewrite (new_events_app w _ [EvShouldRetry (job_id job) true;
                                      EvShouldRetry (job_id job) true;
                                      EvSave (retried_record job msg w)
                                        (store_ok env (clock w));
                                      EvSleep d'; EvZadd (job_id job) sc]) in Hin.
        + repeat (apply elem_of_cons in Hin as [Hin | Hin];
                  [first [discriminate | by injection Hin] |]).
          by apply not_elem_of_nil in Hin.
        + unfold Database.update_job_status, decided_retry. autorewrite with world.
          by rewrite <- !app_assoc. }
    unfold backoff in Hd. simpl in Hd.
    assert (retry_count job = 0 \/ retry_count job = 1)%Z as [Hz | Hz] by lia;
      rewrite Hz in Hd |- *; vm_compute in Hd; injection Hd as <-;
      (split; [lia |]); (split; [lia | reflexivity]).
Qed.

Lemma last_delay_is_never_slept_witness :
  (1 = 1 \/ 1 = 4)%Z /\
  (retry_count Samples.picked_job < 2)%Z /\
  Config.RETRY_DELAYS !! Z.to_nat (retry_count Samples.picked_job) = Some 1%Z.
Proof.
  apply (last_delay_is_never_slept Samples.env_failing Samples.picked_job
           "Job execution failed" Samples.world_picked 1).
  - simpl. lia.
  - apply list_elem_of_In. vm_compute. do 3 right. left. reflexivity.
Defined.

End Delays.

(** ** What the worker leaves alone *)

Module Frame.
Import Models Worker WorkerFacts FailureHandling Engine Lifecycle.

(** The store is keyed by the id of the record, as the primary key of the
    table is. *)
Definition keyed (w : World) : Prop :=
  forall k j, db w !! k = Some j -> job_id j = k.

(** Nothing but the record and the broker entry of [id] differs. *)
Definition only_at (id : string) (w w' : World) : Prop :=
  forall k, k <> id -> db w' !! k = db w !! k /\ queue w' !! k = queue w !! k.

Lemma only_at_trans id w1 w2 w3 : only_at id w1 w2 -> only_at id w2 w3 -> only_at id w1 w3.
Proof.
  intros H12 H23 k Hk. destruct (H12 k Hk) as [<- <-]. exact (H23 k Hk).
Qed.

Lemma only_at_same id w w' : db w' = db w -> queue w' = queue w -> only_at id w w'.
Proof. intros Hdb Hq k _. by rewrite Hdb, Hq. Qed.

Section AnyEnv.
Variable env : Env.

Lemma save_job_only_at job w : only_at (job_id job) w (Database.save_job env job w).2.
Proof.
  intros k Hk. autorewrite with world. split; [| reflexivity].
  destruct (store_ok env (clock w)); [| reflexivity]. by rewrite lookup_insert_ne.
Qed.

Lemma save_job_keyed job w : keyed w -> keyed (Database.save_job env job w).2.
Proof.
  intros Hk k j. autorewrite with world.
  destruct (store_ok env (clock w)); [| apply Hk].
  destruct (decide (job_id job = k)) as [<- | Hne].
  - rewrite lookup_insert_eq. by intros [= <-].
  - rewrite lookup_insert_ne by done. apply Hk.
Qed.

Lemma keyed_same w w' : db w' = db w -> keyed w -> keyed w'.
Proof. intros Hdb Hk k j. rewrite Hdb. apply Hk. Qed.

Lemma handle_job_failure_frame job msg w :
  only_at (job_id job) w (handle_job_failure env job msg w).2 /\
  (keyed w -> keyed (handle_job_failure env job msg w).2) /\
  job_id (handle_job_failure env job msg w).1.2 = job_id job.
Proof.
  destruct (handle_job_failure_shape env job msg w)
    as [[_ ->] | [(_ & _ & ->) | (_ & d & _ & [[_ ->] | (sc & _ & ->)])]];
    cbn [fst snd]; unfold Database.update_job_status.
  - split; [| split; [| reflexivity]].
    + eapply only_at_trans; [| apply (save_job_only_at (failed_record job msg w))].
      by apply only_at_same.
    + intros Hk. apply save_job_keyed. by eapply keyed_same; [| exact Hk].
  - split; [by apply only_at_same |]. split; [| reflexivity].
    by apply keyed_same.
  - split; [| split; [| reflexivity]].
    + eapply only_at_trans;
        [| eapply only_at_trans;
           [apply (save_job_only_at (retried_record job msg w)) | by apply only_at_same]].
      by apply only_at_same.
    + intros Hk. eapply keyed_same; [apply db_sleep |].
      apply save_job_keyed. by eapply keyed_same; [| exact Hk].
  - split; [| split; [| reflexivity]].
    + eapply only_at_trans;
        [| eapply only_at_trans;
           [apply (save_job_only_at (retried_record job msg w)) |]].
      * by apply only_at_same.
      * intros k Hk. autorewrite with world. split; [reflexivity |].
        by rewrite lookup_insert_ne.
    + intros Hk. eapply keyed_same; [apply db_zadd |].
      eapply keyed_same; [apply db_sleep |].
      apply save_job_keyed. by eapply keyed_same; [| exact Hk].
Qed.

Lemma process_job_frame job w :
  only_at (job_id job) w (process_job env job w).2 /\
  (keyed w -> keyed (process_job env job w).2).
Proof.
  unfold process_job.
  destruct (execute_job env job w) as [ran w1] eqn:Hrun.
  assert (w1 = log (EvExecute job ran) (tick w)) as ->.
  { pose proof (execute_job_world env job w) as H. by rewrite Hrun in H. }
  destruct ran.
  - destruct (Database.update_job_status env _ _) as [ok w2] eqn:Hsave.
    assert (w2 = (Database.save_job env
                    (mark_completed (clock (log (EvExecute job true) (tick w))) job)
                    (log (EvExecute job true) (tick w))).2) as ->.
    { unfold Database.update_job_status in Hsave. by rewrite Hsave. }
    cbn [snd]. split.
    + eapply only_at_trans; [| apply (save_job_only_at (mark_completed _ job))].
      by apply only_at_same.
    + intros Hk. apply save_job_keyed. by eapply keyed_same; [| exact Hk].
  - pose proof (handle_job_failure_frame job "Job execution failed"
                  (log (EvExecute job false) (tick w))) as (Hat & Hkeyed & Hid).
    destruct (handle_job_failure env job "Job execution failed" _)
      as [[[| e] job1] w2]; cbn [fst snd] in *.
    + split.
      * eapply only_at_trans; [| exact Hat]. by apply only_at_same.
      * intros Hk. apply Hkeyed. by eapply keyed_same; [| exact Hk].
    + pose proof (handle_job_failure_frame job1 (Py.str e) w2) as (Hat2 & Hkeyed2 & _).
      rewrite Hid in Hat2. split.
      * eapply only_at_trans; [| eapply only_at_trans; [exact Hat | exact Hat2]].
        by apply only_at_same.
      * intros Hk. apply Hkeyed2, Hkeyed. by eapply keyed_same; [| exact Hk].
Qed.

(** A dispatch touches the popped id only, and the job it hands out
    carries that id. *)
Lemma get_next_job_frame w :
  keyed w ->
  keyed (get_next_job env w).2 /\
  (forall k, queue w !! k = None ->
             db (get_next_job env w).2 !! k = db w !! k /\
             queue (get_next_job env w).2 !! k = None) /\
  (forall job, (get_next_job env w).1 = Some job -> is_Some (queue w !! job_id job)).
Proof.
  intros Hk. unfold get_next_job.
  destruct (Broker.zpopmin w) as [[[jid s] |] w1] eqn:Hpop.
  - pose proof (BrokerFacts.zpopmin_some _ _ _ _ Hpop) as (Hq & -> & _).
    unfold Database.get_job. autorewrite with world.
    assert (forall k, queue w !! k = None -> delete jid (queue w) !! k = None) as Hdel.
    { intros k Hnone. destruct (decide (jid = k)) as [<- | Hne];
        [apply lookup_delete_eq | by rewrite lookup_delete_ne]. }
    destruct (db w !! jid) as [stored |] eqn:Hdb.
    + destruct (String.eqb (status stored) "pending").
      * destruct (Database.update_job_status env _ _) as [ok w2] eqn:Hsave.
        assert (w2 = (Database.save_job env
                        (mark_picked (clock w) stored)
                        (log (EvZpopmin (Some (jid, s)))
                           (with_queue (delete jid (queue w)) w))).2) as ->.
        { unfold Database.update_job_status in Hsave. by rewrite Hsave. }
        cbn [fst snd]. pose proof (Hk _ _ Hdb) as Hid.
        split; [| split].
        -- apply save_job_keyed. by eapply keyed_same; [| exact Hk].
        -- intros k Hnone. autorewrite with world.
           split; [| by apply Hdel].
           destruct (store_ok env (clock w)); [| reflexivity].
           rewrite lookup_insert_ne; [reflexivity |].
           change (job_id (mark_picked (clock w) stored)) with (job_id stored).
           rewrite Hid. intros <-. congruence.
        -- intros job [= <-].
           change (job_id (mark_picked (clock w) stored)) with (job_id stored).
           rewrite Hid. by eexists.
      * cbn [fst snd]. split; [by eapply keyed_same; [| exact Hk] |].
        split; [| discriminate]. intros k Hnone. autorewrite with world.
        split; [reflexivity | by apply Hdel].
    + cbn [fst snd]. split; [by eapply keyed_same; [| exact Hk] |].
      split; [| discriminate]. intros k Hnone. autorewrite with world.
      split; [reflexivity | by apply Hdel].
  - pose proof (BrokerFacts.zpopmin_none _ _ _ Hpop) as [Hnone _].
    specialize (Hnone eq_refl).
    assert (w1 = log (EvZpopmin None) w) as ->.
    { pose proof (get_next_job_empty env w Hnone) as H. unfold get_next_job in H.
      rewrite Hpop in H. by apply pair_equal_spec in H as [_ ->]. }
    cbn [fst snd]. split; [by eapply keyed_same; [| exact Hk] |].
    split; [| discriminate]. intros k Hq. by autorewrite with world.
Qed.

Lemma worker_iteration_frame w k :
  keyed w -> queue w !! k = None ->
  keyed (worker_iteration env w).2 /\
  db (worker_iteration env w).2 !! k = db w !! k /\
  queue (worker_iteration env w).2 !! k = None.
Proof.
  intros Hk Hnone. destruct (get_next_job_frame w Hk) as (Hk1 & Hrest & Hjob).
  destruct (Hrest k Hnone) as [Hdb1 Hq1]. unfold worker_iteration.
  destruct (get_next_job env w) as [[job |] w1]; cbn [fst snd] in *.
  - destruct (process_job_frame job w1) as [Hat Hk2].
    destruct (process_job env job w1) as [[r job2] w2]; cbn [fst snd] in *.
    split; [by apply Hk2 |].
    assert (k <> job_id job) as Hne.
    { intros ->. destruct (Hjob job eq_refl) as [s Hs]. congruence. }
    destruct (Hat k Hne) as [-> ->]. by split.
  - split; [by eapply keyed_same; [| exact Hk1] |]. by split.
Qed.

End AnyEnv.

(** X20: whatever the store refuses and whatever the handlers draw, the
    worker touches nothing but what the broker hands it: a record whose id
    is not in the broker is never changed by the loop, and its id never
    enters the broker.  A record left processing, or pending without a
    broker entry, therefore stays so for good. *)
Theorem unqueued_record_is_never_touched env n w k :
  keyed w ->
  queue w !! k = None ->
  db (start env n w).2 !! k = db w !! k /\
  queue (start env n w).2 !! k = None.
Proof.
  revert w. induction n as [| n IH]; intros w Hk Hnone; [by split |].
  destruct (worker_iteration_frame env w k Hk Hnone) as (Hk1 & Hdb1 & Hq1).
  simpl. destruct (worker_iteration env w) as [[| e] w1]; cbn [fst snd] in *.
  - destruct (IH w1 Hk1 Hq1) as [-> ->]. by split.
  - by split.
Qed.

(** job-a was dispatched and has no broker entry; job-b waits. *)
Definition world_stuck : World :=
  {| db := <["job-a" := Samples.picked_job]> (<["job-b" := Samples.waiting_job]> ∅);
     queue := <["job-b" := 2%Z]> ∅;
     clock := 4; trace := [] |}.

Lemma unqueued_record_is_never_touched_witness :
  db (start (StoreFaults.env_store_down 5) 4 world_stuck).2 !! "job-a"
    = Some Samples.picked_job /\
  queue (start (StoreFaults.env_store_down 5) 4 world_stuck).2 !! "job-a" = None.
Proof.
  apply (unqueued_record_is_never_touched (StoreFaults.env_store_down 5) 4
           world_stuck "job-a").
  - intros k j Hj. unfold world_stuck in Hj. cbn [db] in Hj.
    apply lookup_insert_Some in Hj as [[<- <-] | [_ Hj]]; [reflexivity |].
    apply lookup_insert_Some in Hj as [[<- <-] | [_ Hj]]; [reflexivity |].
    by rewrite lookup_empty in Hj.
  - reflexivity.
Defined.

End Frame.
